(** * circpacker: tangent circles and the fractal packing of a triangle

    A shallow embedding of [circpacker/core/basegeom.py]: the classes
    [Circle] and [Triangle], the tangent-circle construction
    [Circle.descartesTheorem] and the packing loop [Triangle.circInTriangle].

    The Python code computes with binary64 numbers and lets the arithmetic
    raise.  The embedding is written once, over an interface [Arith] of the
    operations the code uses, each with the exceptions Python attaches to
    it, and is read at two instances:
    - [RArith], exact real arithmetic, where the geometric statements
      (curvature formulas, tangency, termination) are proved;
    - [FArith], primitive binary64 floats, where the code can be run and
      the propagation of infinities and NaN observed. *)

From Stdlib Require Import PrimFloat.
From Stdlib Require Import Reals Lra Psatz ZArith String List Bool.
Import ListNotations.

(** ** Outcomes of a call *)

(** What the arithmetic of Python and NumPy can raise.  [ComplexValue] is
    not an exception of its own: a negative base under [** 0.5] makes
    Python continue with a complex number (which [float()] rejects when it
    reaches [Circle.__init__] as a radius); the embedding stops where the
    complex number appears.  [FloatingPointError] is used by the exact instance only, for
    a NumPy quotient by zero, whose value (an infinity or NaN) is no real
    number. *)
Inductive arith_exn : Type :=
| ZeroDivisionError
| OverflowError
| FloatingPointError
| ComplexValue.

(** What a call of [circInTriangle] can end with, besides a value.
    [OutOfFuel] is not a Python exception: it says that the bound put on
    the iterations of [while True] was reached. *)
Inductive exn : Type :=
| ArithmeticError (e : arith_exn)
| ValueError (msg : string)
| OutOfFuel.

Inductive result (E A : Type) : Type :=
| Ok (a : A)
| Raise (e : E).

Arguments Ok {E A} a.
Arguments Raise {E A} e.

Definition bind {E A B : Type} (r : result E A) (k : A -> result E B)
  : result E B :=
  match r with
  | Ok a => k a
  | Raise e => Raise e
  end.

Definition lift {A : Type} (r : result arith_exn A) : result exn A :=
  match r with
  | Ok a => Ok a
  | Raise e => Raise (ArithmeticError e)
  end.

Declare Scope py_scope.
Delimit Scope py_scope with py.

Notation "x <- c ;; k" := (bind c (fun x => k))
  (at level 61, c at next level, right associativity) : py_scope.
Notation "' p <- c ;; k" := (bind c (fun x => let p := x in k))
  (at level 61, p pattern, c at next level, right associativity) : py_scope.

(** ** The arithmetic the code relies on *)

Class Arith (F : Type) : Type := {
  f0 : F;
  f1 : F;
  f2 : F;
  fhalf : F;
  fpi : F;
  fadd : F -> F -> F;
  fsub : F -> F -> F;
  fmul : F -> F -> F;
  fabs : F -> F;
  (** [x / y] on Python floats: raises on a zero divisor. *)
  fdiv : F -> F -> result arith_exn F;
  (** [x ** 2], [x ** 0.5] and [x ** -1] on Python floats. *)
  fpow2 : F -> result arith_exn F;
  fpow_half : F -> result arith_exn F;
  fpow_neg1 : F -> result arith_exn F;
  (** [x / y] where [x] is a NumPy scalar or array: never raises. *)
  npdiv : F -> F -> result arith_exn F;
  (** the square root inside [np.linalg.norm]. *)
  npsqrt : F -> F;
  (** [x <= y] and [x != y]. *)
  fle : F -> F -> bool;
  fne : F -> F -> bool
}.

Infix "+" := fadd : py_scope.
Infix "-" := fsub : py_scope.
Infix "*" := fmul : py_scope.

(** *** Exact arithmetic *)

Definition Rdiv_checked (x y : R) : result arith_exn R :=
  if Req_dec_T y 0 then Raise ZeroDivisionError else Ok (x / y)%R.

Definition Rnpdiv (x y : R) : result arith_exn R :=
  if Req_dec_T y 0 then Raise FloatingPointError else Ok (x / y)%R.

Definition Rpow_half (x : R) : result arith_exn R :=
  if Rlt_dec x 0 then Raise ComplexValue else Ok (sqrt x).

Definition Rpow_neg1 (x : R) : result arith_exn R :=
  if Req_dec_T x 0 then Raise ZeroDivisionError else Ok (/ x)%R.

Definition Rleb (x y : R) : bool := if Rle_dec x y then true else false.

Definition Rneb (x y : R) : bool := if Req_dec_T x y then false else true.

#[export] Instance RArith : Arith R := {|
  f0 := 0%R;
  f1 := 1%R;
  f2 := 2%R;
  fhalf := (1 / 2)%R;
  fpi := PI;
  fadd := Rplus;
  fsub := Rminus;
  fmul := Rmult;
  fabs := Rabs;
  fdiv := Rdiv_checked;
  fpow2 := fun x => Ok (x * x)%R;
  fpow_half := Rpow_half;
  fpow_neg1 := Rpow_neg1;
  npdiv := Rnpdiv;
  npsqrt := sqrt;
  fle := Rleb;
  fne := Rneb
|}.

(** *** Binary64 arithmetic

    Python's [float_pow] treats the special values before it calls the C
    library: a NaN base gives NaN, an infinite base gives an infinity or a
    zero, a zero base with a negative exponent raises, a negative base with
    a fractional exponent leaves the floats, and an overflow of the C
    [pow] raises [OverflowError].  The C [pow] itself is read as the
    correctly rounded operation. *)

Definition Fdiv_checked (x y : float) : result arith_exn float :=
  if PrimFloat.is_zero y then Raise ZeroDivisionError
  else Ok (PrimFloat.div x y).

Definition Fpow2 (x : float) : result arith_exn float :=
  let r := PrimFloat.mul x x in
  if PrimFloat.is_finite x && PrimFloat.is_infinity r
  then Raise OverflowError else Ok r.

Definition Fpow_half (x : float) : result arith_exn float :=
  if PrimFloat.is_nan x then Ok x
  else if PrimFloat.is_infinity x then Ok PrimFloat.infinity
  else if PrimFloat.is_zero x then Ok PrimFloat.zero
  else if PrimFloat.ltb x PrimFloat.zero then Raise ComplexValue
  else Ok (PrimFloat.sqrt x).

Definition Fpow_neg1 (x : float) : result arith_exn float :=
  if PrimFloat.is_nan x then Ok x
  else if PrimFloat.is_infinity x
       then Ok (if PrimFloat.ltb x PrimFloat.zero
                then PrimFloat.neg_zero else PrimFloat.zero)
  else if PrimFloat.is_zero x then Raise ZeroDivisionError
  else let r := PrimFloat.div PrimFloat.one x in
       if PrimFloat.is_infinity r then Raise OverflowError else Ok r.

#[export] Instance FArith : Arith float := {|
  f0 := PrimFloat.zero;
  f1 := PrimFloat.one;
  f2 := PrimFloat.two;
  fhalf := 0.5%float;
  fpi := 0x1.921fb54442d18p+1%float;
  fadd := PrimFloat.add;
  fsub := PrimFloat.sub;
  fmul := PrimFloat.mul;
  fabs := PrimFloat.abs;
  fdiv := Fdiv_checked;
  fpow2 := Fpow2;
  fpow_half := Fpow_half;
  fpow_neg1 := Fpow_neg1;
  npdiv := fun x y => Ok (PrimFloat.div x y);
  npsqrt := PrimFloat.sqrt;
  fle := PrimFloat.leb;
  fne := fun x y => negb (PrimFloat.eqb x y)
|}.

(** ** Circles *)

Section Geometry.

Context {F : Type} `{Arith F}.
Local Open Scope py_scope.

Definition Point : Type := (F * F)%type.

(** [np.linalg.norm(np.asarray(point_a) - np.asarray(point_b))] on two
    2-D points: the square root of the dot product of the difference. *)
Definition _euclidean_distance (point_a point_b : Point) : F :=
  let dx := fst point_a - fst point_b in
  let dy := snd point_a - snd point_b in
  npsqrt (dx * dx + dy * dy).

Record Circle : Type := {
  center : Point;
  radius : F;
  curvature : F;
  diameter : F;
  area : F;
  perimeter : F
}.

(** [Circle.__init__]. *)
Definition Circle_init (c : Point) (r : F) : result arith_exn Circle :=
  k <- fdiv f1 r ;;
  sq <- fpow2 r ;;
  Ok {| center := c;
        radius := r;
        curvature := k;
        diameter := f2 * r;
        area := fpi * sq;
        perimeter := f2 * r * fpi |}.

(** [Circle.descartesTheorem]. *)
Definition descartesTheorem (self circle1 : Circle) (circle2 : option Circle)
  : result arith_exn (Circle * Circle) :=
  r <- match circle2 with
       | None =>
           s <- fpow_half (curvature self * curvature circle1) ;;
           fpow_neg1 (curvature self + curvature circle1 + f2 * s)
       | Some circle2 =>
           s <- fpow_half (curvature self * curvature circle1
                           + curvature circle1 * curvature circle2
                           + curvature circle2 * curvature self) ;;
           fpow_neg1 (curvature self + curvature circle1
                      + radius circle2 + curvature circle2 + f2 * s)
       end ;;
  let R1 := radius self + r in
  let R2 := radius circle1 + r in
  let dist := radius self + radius circle1 in
  cos <- npdiv (fst (center circle1) - fst (center self)) dist ;;
  sin <- npdiv (snd (center circle1) - snd (center self)) dist ;;
  R1sq <- fpow2 R1 ;;
  R2sq <- fpow2 R2 ;;
  distsq <- fpow2 dist ;;
  chordDist <- fdiv (R1sq - R2sq + distsq) (f2 * dist) ;;
  R1sq' <- fpow2 R1 ;;
  chordsq <- fpow2 chordDist ;;
  halfChord <- fpow_half (R1sq' - chordsq) ;;
  let center3 :=
    (fst (center self) + chordDist * cos - halfChord * sin,
     snd (center self) + chordDist * sin + halfChord * cos) in
  let center4 :=
    (fst (center self) + chordDist * cos + halfChord * sin,
     snd (center self) + chordDist * sin - halfChord * cos) in
  c3 <- Circle_init center3 r ;;
  c4 <- Circle_init center4 r ;;
  Ok (c3, c4).

(** ** Triangles *)

(** The dictionary [vertices] has the three keys ["A"], ["B"], ["C"], in
    this order; [sides] has the keys ["a"], ["b"], ["c"].  [lstCirc] is set
    by the first call of [circInTriangle] and absent before. *)
Record Triangle : Type := {
  vertices : Point * Point * Point;
  t_area : F;
  sides : F * F * F;
  t_perimeter : F;
  distToIncenter : list F;
  incircle : Circle;
  lstCirc : option (list Circle)
}.

(** [self.vertices.values()]. *)
Definition vertices_values (v : Point * Point * Point) : list Point :=
  let '(A, B, C) := v in [A; B; C].

(** [Triangle.getGeomProperties], on the vertices stored by [__init__]. *)
Definition getGeomProperties (v : Point * Point * Point)
  : result arith_exn Triangle :=
  let '(A, B, C) := v in
  (* Area (Gauss Equation): the built-in [sum] starts from 0 *)
  let t_area := fhalf * fabs (f0
                        + (fst A * snd B - snd A * fst B)
                        + (fst B * snd C - snd B * fst C)
                        + (fst C * snd A - snd C * fst A)) in
  let a := _euclidean_distance B C in
  let b := _euclidean_distance A C in
  let c := _euclidean_distance A B in
  let t_perimeter := a + b + c in
  r <- npdiv (f2 * t_area) t_perimeter ;;
  x <- npdiv (a * fst A + b * fst B + c * fst C) t_perimeter ;;
  y <- npdiv (a * snd A + b * snd B + c * snd C) t_perimeter ;;
  let distToIncenter :=
    map (fun v => _euclidean_distance (x, y) v) (vertices_values (A, B, C)) in
  inc <- Circle_init (x, y) r ;;
  Ok {| vertices := (A, B, C);
        t_area := t_area;
        sides := (a, b, c);
        t_perimeter := t_perimeter;
        distToIncenter := distToIncenter;
        incircle := inc;
        lstCirc := None |}.

(** [Triangle.__init__]. *)
Definition Triangle_init (coordinates : Point * Point * Point)
  : result arith_exn Triangle :=
  getGeomProperties coordinates.

Definition set_lstCirc (self : Triangle) (l : list Circle) : Triangle :=
  {| vertices := vertices self;
     t_area := t_area self;
     sides := sides self;
     t_perimeter := t_perimeter self;
     distToIncenter := distToIncenter self;
     incircle := incircle self;
     lstCirc := Some l |}.

(** What [Triangle.plot] and the patches added to it leave on the figure:
    the closed outline of the triangle and one patch per circle. *)
Record Axes : Type := {
  outline : list Point;
  patches : list (Point * F)
}.

(** [Triangle.plot]. *)
Definition plot (self : Triangle) : Axes :=
  let '(A, B, C) := vertices self in
  {| outline := [A; B; C; A]; patches := [] |}.

Definition add_patch (figure : Axes) (p : Point * F) : Axes :=
  {| outline := outline figure; patches := patches figure ++ [p] |}.

(** ** The packing loop *)

Section Packing.

(** The method the loop calls on its circles, [auxCirc.descartesTheorem]
    and [circle.descartesTheorem]. *)
Variable descartes :
  Circle -> Circle -> option Circle -> result arith_exn (Circle * Circle).

(** One turn of the [while True] loop of the length-bounded mode: [None]
    is the [break]; otherwise the circles appended to [lstCirc] and the new
    values of [auxCirc] and [auxDist]. *)
Definition length_body (auxCirc : Circle) (auxDist : F) (vert : Point)
    (lenght : F) : result arith_exn (option (list Circle * Circle * F)) :=
  sq <- fpow2 (radius auxCirc) ;;
  r <- fdiv (radius auxCirc * auxDist - sq) (radius auxCirc + auxDist) ;;
  if fle (f2 * r) lenght then Ok None
  else
    let dist := radius auxCirc + r in
    q <- fdiv dist auxDist ;;
    let c :=
      (fst (center auxCirc) + q * (fst vert - fst (center auxCirc)),
       snd (center auxCirc) + q * (snd vert - snd (center auxCirc))) in
    circle <- Circle_init c r ;;
    '(c31, c32) <- descartes auxCirc circle None ;;
    Ok (Some ([circle; c31; c32],
              circle,
              _euclidean_distance vert (center circle))).

Fixpoint length_loop (fuel : nat) (auxCirc : Circle) (auxDist : F)
    (vert : Point) (lenght : F) : result exn (list Circle) :=
  match fuel with
  | O => Raise OutOfFuel
  | S fuel' =>
      step <- lift (length_body auxCirc auxDist vert lenght) ;;
      match step with
      | None => Ok []
      | Some (new, circle, auxDist') =>
          rest <- length_loop fuel' circle auxDist' vert lenght ;;
          Ok (new ++ rest)
      end
  end.

(** One turn of the [for] loop of the depth-bounded mode. *)
Definition depth_body (auxCirc : Circle) (auxDist : F) (vert : Point)
  : result arith_exn (list Circle * Circle * F) :=
  sq <- fpow2 (radius auxCirc) ;;
  r <- fdiv (radius auxCirc * auxDist - sq) (radius auxCirc + auxDist) ;;
  let dist := radius auxCirc + r in
  q <- fdiv dist auxDist ;;
  let c :=
    (fst (center auxCirc) + q * (fst vert - fst (center auxCirc)),
     snd (center auxCirc) + q * (snd vert - snd (center auxCirc))) in
  circle <- Circle_init c r ;;
  '(c31, c32) <- descartes auxCirc circle None ;;
  '(c41, c42) <- descartes auxCirc circle (Some c31) ;;
  '(c51, c52) <- descartes circle c31 None ;;
  '(c61, c62) <- descartes circle c32 None ;;
  '(c71, c72) <- descartes auxCirc c31 None ;;
  '(c81, c82) <- descartes auxCirc c32 None ;;
  Ok ([circle; c31; c32; c41; c42; c52; c61; c71; c82],
      circle,
      _euclidean_distance vert (center circle)).

(** [for i in range(1, depth + 1)], with [n] turns left. *)
Fixpoint depth_loop (n : nat) (auxCirc : Circle) (auxDist : F)
    (vert : Point) : result arith_exn (list Circle) :=
  match n with
  | O => Ok []
  | S n' =>
      '(new, circle, auxDist') <- depth_body auxCirc auxDist vert ;;
      rest <- depth_loop n' circle auxDist' vert ;;
      Ok (new ++ rest)
  end.

(** The body of [for vert, distance in zip(...)]: what one vertex adds to
    [lstCirc]. *)
Definition branch (fuel : nat) (self : Triangle) (depth : option Z)
    (lenght : option F) (vert : Point) (distance : F)
  : result exn (list Circle) :=
  let auxCirc := incircle self in
  let auxDist := distance in
  match depth, lenght with
  | None, Some lenght => length_loop fuel auxCirc auxDist vert lenght
  | Some depth, None =>
      if (0 <=? depth)%Z
      then lift (depth_loop (Z.to_nat depth) auxCirc auxDist vert)
      else Ok []
  | _, _ => Ok []
  end.

Fixpoint branches (fuel : nat) (self : Triangle) (depth : option Z)
    (lenght : option F) (vds : list (Point * F)) : result exn (list Circle) :=
  match vds with
  | [] => Ok []
  | (vert, distance) :: vds' =>
      new <- branch fuel self depth lenght vert distance ;;
      rest <- branches fuel self depth lenght vds' ;;
      Ok (new ++ rest)
  end.

Definition conflict_msg : string :=
  "Conflicting values for 'length' and legacy 'lenght'.".

(** [Triangle.circInTriangle]: the object after the call, the value
    returned ([None] is Python's [None]) and the figure drawn, if any. *)
Definition circInTriangle_with (fuel : nat) (self : Triangle)
    (depth : option Z) (lenght : option F) (want2plot : bool)
    (length : option F)
  : result exn (Triangle * option (list Circle) * option Axes) :=
  lenght <- match length with
            | Some length =>
                match lenght with
                | Some lenght =>
                    if fne length lenght then Raise (ValueError conflict_msg)
                    else Ok (Some length)
                | None => Ok (Some length)
                end
            | None => Ok lenght
            end ;;
  new <- branches fuel self depth lenght
           (combine (vertices_values (vertices self)) (distToIncenter self)) ;;
  let lstCirc := incircle self :: new in
  let self := set_lstCirc self lstCirc in
  if want2plot then
    let figure :=
      fold_left (fun fig circle => add_patch fig (center circle, radius circle))
                lstCirc (plot self) in
    Ok (self, None, Some figure)
  else Ok (self, Some lstCirc, None).

End Packing.

Definition circInTriangle :=
  circInTriangle_with descartesTheorem.

End Geometry.

Arguments Point F : clear implicits.
Arguments Circle F : clear implicits.
Arguments Triangle F : clear implicits.
Arguments Axes F : clear implicits.

(** ** Polygons *)

(** What [Polygon.__init__] raises on an empty array of coordinates, at
    [self.coordinates[0]]. *)
Inductive index_exn : Type :=
| IndexError.

Section Polygons.

Context {F : Type} `{Arith F}.
Local Open Scope py_scope.

(** [Polygon.area()] replaces itself by its value, with
    [setattr(self, "area", area)]: after [__init__] the attribute [area]
    is the number [p_area]. *)
Record Polygon : Type := {
  coordinates : list (Point F);
  boundCoords : list (Point F);
  p_area : F
}.

(** [b[:-1, 0] * b[1:, 1] - b[:-1, 1] * b[1:, 0]], term by term. *)
Fixpoint shoelace_terms (b : list (Point F)) : list F :=
  match b with
  | p :: (q :: _) as rest =>
      (fst p * snd q - snd p * fst q) :: shoelace_terms rest
  | _ => []
  end.

(** The built-in [sum]: [0 + x0 + x1 + ...], from the left. *)
Definition py_sum (xs : list F) : F := fold_left fadd xs f0.

(** [Polygon.area], on [self.boundCoords]. *)
Definition Polygon_area (boundCoords : list (Point F)) : F :=
  fhalf * fabs (py_sum (shoelace_terms boundCoords)).

(** [Polygon.__init__]. *)
Definition Polygon_init (coordinates : list (Point F))
  : result index_exn Polygon :=
  match coordinates with
  | [] => Raise IndexError
  | first :: _ =>
      let boundCoords := coordinates ++ [first] in
      Ok {| coordinates := coordinates;
            boundCoords := boundCoords;
            p_area := Polygon_area boundCoords |}
  end.

End Polygons.

Arguments Polygon F : clear implicits.


(** * Vocabulary of the statements *)

Section Words.

Context {F : Type} `{Arith F}.

(** The type of [descartesTheorem], as the loop sees it. *)
Definition descartes_t : Type :=
  Circle F -> Circle F -> option (Circle F)
  -> result arith_exn (Circle F * Circle F).

(** The value of [lenght] after [if length is not None: ... lenght = length]. *)
Definition effective_length (lenght length : option F) : option F :=
  match length with
  | Some x => Some x
  | None => lenght
  end.

(** Both spellings given, with values that [!=] tells apart. *)
Definition conflicting (lenght length : option F) : bool :=
  match length, lenght with
  | Some x, Some y => fne x y
  | _, _ => false
  end.

(** The modes in which the loop over the vertices does nothing: both
    [depth] and a length, neither, or a negative [depth]. *)
Definition skips (depth : option Z) (lenght : option F) : bool :=
  match depth, lenght with
  | None, Some _ => false
  | Some depth, None => negb (0 <=? depth)%Z
  | _, _ => true
  end.

(** The configurations the specification calls invalid, in its words:
    conflicting [length] and [lenght], both or neither of [depth] and a
    length, a negative [depth], a non-positive length. *)
Definition invalid_configuration (depth : option Z) (lenght length : option F)
  : bool :=
  conflicting lenght length
  || match depth, effective_length lenght length with
     | None, None => true
     | Some _, Some _ => true
     | Some depth, None => (depth <? 0)%Z
     | None, Some l => fle l f0
     end.

(** The figure left by a call with [want2plot=True]. *)
Definition drawn (self : Triangle F) (l : list (Circle F)) : Axes F :=
  fold_left (fun fig circle => add_patch fig (center circle, radius circle))
            l (plot self).


End Words.

(** ** Exact arithmetic *)

Local Open Scope R_scope.

(** The circle [Circle(c, r)] when [r] is not zero. *)
Definition Rcircle (c : Point R) (r : R) : Circle R :=
  {| center := c;
     radius := r;
     curvature := 1 / r;
     diameter := 2 * r;
     area := PI * (r * r);
     perimeter := 2 * r * PI |}.

(** [_euclidean_distance] over the reals. *)
Definition Rdist (P Q : Point R) : R :=
  sqrt ((fst P - fst Q) * (fst P - fst Q) + (snd P - snd Q) * (snd P - snd Q)).

(** The radius [descartesTheorem] computes in its special case and in its
    general case, from the radii of its arguments. *)
Definition special_radius (r0 r1 : R) : R :=
  / (1 / r0 + 1 / r1 + 2 * sqrt (1 / r0 * (1 / r1))).

Definition general_radius (r0 r1 r2 : R) : R :=
  / (1 / r0 + 1 / r1 + r2 + 1 / r2
     + 2 * sqrt (1 / r0 * (1 / r1) + 1 / r1 * (1 / r2) + 1 / r2 * (1 / r0))).

(** [chordDist], [halfChord], [center3] and [center4] of
    [descartesTheorem], for radii [r0], [r1] and the new radius [r]. *)
Definition chord_dist (r0 r1 r : R) : R :=
  ((r0 + r) * (r0 + r) - (r1 + r) * (r1 + r) + (r0 + r1) * (r0 + r1))
  / (2 * (r0 + r1)).

Definition half_chord (r0 r1 r : R) : R :=
  sqrt ((r0 + r) * (r0 + r) - chord_dist r0 r1 r * chord_dist r0 r1 r).

Definition center3_of (O0 O1 : Point R) (r0 r1 r : R) : Point R :=
  let cos := (fst O1 - fst O0) / (r0 + r1) in
  let sin := (snd O1 - snd O0) / (r0 + r1) in
  (fst O0 + chord_dist r0 r1 r * cos - half_chord r0 r1 r * sin,
   snd O0 + chord_dist r0 r1 r * sin + half_chord r0 r1 r * cos).

Definition center4_of (O0 O1 : Point R) (r0 r1 r : R) : Point R :=
  let cos := (fst O1 - fst O0) / (r0 + r1) in
  let sin := (snd O1 - snd O0) / (r0 + r1) in
  (fst O0 + chord_dist r0 r1 r * cos + half_chord r0 r1 r * sin,
   snd O0 + chord_dist r0 r1 r * sin - half_chord r0 r1 r * cos).

(** The circle placed by one turn of the loop, from the radius [r] of
    [auxCirc], its centre [O], the vertex [V] and [auxDist = d]. *)
Definition next_radius (r d : R) : R := (r * d - r * r) / (r + d).

Definition next_center (O V : Point R) (r d : R) : Point R :=
  let q := (r + next_radius r d) / d in
  (fst O + q * (fst V - fst O), snd O + q * (snd V - snd O)).

(** The ratio of two consecutive radii along a branch. *)
Definition shrink (r d : R) : R := (d - r) / (d + r).

(** What the specification says of a placement step: the radius and the
    centre of the new [circle], and the new value of [auxDist]. *)
Definition placed (auxCirc : Circle R) (auxDist : R) (vert : Point R)
    (circle : Circle R) (auxDist' : R) : Prop :=
  let r := (radius auxCirc * auxDist - radius auxCirc * radius auxCirc)
           / (radius auxCirc + auxDist) in
  radius circle = r
  /\ center circle
     = (fst (center auxCirc)
        + (radius auxCirc + r) / auxDist * (fst vert - fst (center auxCirc)),
        snd (center auxCirc)
        + (radius auxCirc + r) / auxDist * (snd vert - snd (center auxCirc)))
  /\ auxDist' = sqrt ((fst vert - fst (center circle))
                      * (fst vert - fst (center circle))
                      + (snd vert - snd (center circle))
                        * (snd vert - snd (center circle))).

(** Twice the signed area of [PQS]: zero exactly when the three points are
    on a line. *)
Definition cross (P Q S : Point R) : R :=
  (fst Q - fst P) * (snd S - snd P) - (snd Q - snd P) * (fst S - fst P).

Definition Rperimeter (A B C : Point R) : R :=
  Rdist B C + Rdist A C + Rdist A B.

Definition incenter (A B C : Point R) : Point R :=
  ((Rdist B C * fst A + Rdist A C * fst B + Rdist A B * fst C)
   / Rperimeter A B C,
   (Rdist B C * snd A + Rdist A C * snd B + Rdist A B * snd C)
   / Rperimeter A B C).

Definition inradius (A B C : Point R) : R :=
  Rabs (cross A B C) / Rperimeter A B C.

(** The object [Triangle((A, B, C))] when the vertices are not on a line. *)
Definition Rtriangle (A B C : Point R) : Triangle R :=
  {| vertices := (A, B, C);
     t_area := 1 / 2 * Rabs (0 + (fst A * snd B - snd A * fst B)
                             + (fst B * snd C - snd B * fst C)
                             + (fst C * snd A - snd C * fst A));
     sides := (Rdist B C, Rdist A C, Rdist A B);
     t_perimeter := Rperimeter A B C;
     distToIncenter := [Rdist (incenter A B C) A; Rdist (incenter A B C) B;
                        Rdist (incenter A B C) C];
     incircle := Rcircle (incenter A B C) (inradius A B C);
     lstCirc := None |}.

(** ** Further vocabulary, in exact arithmetic *)

(** The [i]-th circle on the way from the circle of centre [O] and radius
    [r] to the vertex [V], at distance [d] from [O]: radius and centre
    shrink by the same ratio at every turn. *)
Definition bisector_radius (r d : R) (i : nat) : R := r * shrink r d ^ i.

Definition bisector_center (O V : Point R) (r d : R) (i : nat) : Point R :=
  (fst V + shrink r d ^ i * (fst O - fst V),
   snd V + shrink r d ^ i * (snd O - snd V)).

Definition bisector_circle (O V : Point R) (r d : R) (i : nat) : Circle R :=
  Rcircle (bisector_center O V r d i) (bisector_radius r d i).

(** What the packing says of the [i]-th circle placed towards the vertex
    [V] of a triangle of incentre [I] and inradius [rin], [W1] and [W2]
    being the other two vertices: its radius, its centre, and that it
    touches the lines [V W1] and [V W2] (its distance to each, the
    quotient of [|cross|] by the length of the side, is its radius). *)
Definition on_bisector (I : Point R) (rin : R) (V W1 W2 : Point R) (i : nat)
    (c : Circle R) : Prop :=
  let q := shrink rin (Rdist I V) in
  radius c = rin * q ^ S i
  /\ center c = (fst V + q ^ S i * (fst I - fst V),
                 snd V + q ^ S i * (snd I - snd V))
  /\ Rabs (cross V W1 (center c)) = radius c * Rdist V W1
  /\ Rabs (cross V W2 (center c)) = radius c * Rdist V W2.




(** The signed sum of the shoelace terms along a path, one term, and the
    translation of a point. *)
Definition signed (b : list (Point R)) : R := py_sum (shoelace_terms b).

Definition edge (p q : Point R) : R := fst p * snd q - snd p * fst q.

Definition shift (t : Point R) (p : Point R) : Point R :=
  (fst p + fst t, snd p + snd t).

(** ** Binary64 arithmetic *)

(** The triangle of the package's tests and docstrings. *)
Definition test_coordinates : Point float * Point float * Point float :=
  ((2, 1.5), (4.5, 4), (6, 2))%float.

Definition test_triangle : Triangle float :=
  Eval vm_compute in
    match Triangle_init test_coordinates as r
          return match r with Ok _ => Triangle float | Raise _ => unit end
    with
    | Ok self => self
    | Raise _ => tt
    end.

(** * Properties that hold for every arithmetic *)

Lemma bind_Ok {E A B : Type} (r : result E A) (k : A -> result E B) (b : B) :
  bind r k = Ok b -> exists a, r = Ok a /\ k a = Ok b.
Proof. destruct r as [a|e]; simpl; intros Hk; [eauto | discriminate]. Qed.

Lemma lift_Ok {A : Type} (r : result arith_exn A) (a : A) :
  lift r = Ok a -> r = Ok a.
Proof. destruct r; simpl; congruence. Qed.

Lemma lift_not_ValueError {A : Type} (r : result arith_exn A) (msg : string) :
  lift r <> Raise (ValueError msg).
Proof. destruct r; simpl; congruence. Qed.

(** Splits a hypothesis [bind r k = Ok b] into its two steps. *)
Ltac bind_inv H :=
  let a := fresh "a" in
  let Ha := fresh "Ha" in
  apply bind_Ok in H; destruct H as (a & Ha & H); cbv beta in H.

Section Structure.

Context {F : Type} `{Arith F}.
Local Open Scope py_scope.

(** ** The loop over the vertices *)

Lemma branches_skips (d : descartes_t) fuel self depth lenght vds :
  skips depth lenght = true ->
  branches d fuel self depth lenght vds = Ok [].
Proof.
  intros Hs. induction vds as [|[vert distance] vds IH]; simpl; [reflexivity|].
  rewrite IH. unfold branch.
  destruct depth as [z|], lenght as [l|]; simpl in *; try discriminate;
    try reflexivity.
  destruct (0 <=? z)%Z; [discriminate | reflexivity].
Qed.

Lemma branches_depth_zero (d : descartes_t) fuel self vds :
  branches d fuel self (Some 0%Z) None vds = Ok [].
Proof.
  induction vds as [|[vert distance] vds IH]; simpl; [reflexivity|].
  rewrite IH. reflexivity.
Qed.

Lemma branches_set_lstCirc (d : descartes_t) fuel self l depth lenght vds :
  branches d fuel (set_lstCirc self l) depth lenght vds
  = branches d fuel self depth lenght vds.
Proof.
  induction vds as [|[vert distance] vds IH]; simpl; [reflexivity|].
  rewrite IH. reflexivity.
Qed.

(** ** The length-bounded mode *)

Lemma length_body_shape (d : descartes_t) auxCirc auxDist vert lenght
      new circle auxDist' :
  length_body d auxCirc auxDist vert lenght = Ok (Some (new, circle, auxDist')) ->
  exists c31 c32,
    d auxCirc circle None = Ok (c31, c32)
    /\ new = [circle; c31; c32]
    /\ auxDist' = _euclidean_distance vert (center circle).
Proof.
  unfold length_body. intros Hb.
  bind_inv Hb. bind_inv Hb.
  destruct (fle _ lenght); [discriminate|].
  bind_inv Hb. bind_inv Hb. bind_inv Hb.
  destruct a3 as [c31 c32]. injection Hb as <- <- <-.
  exists c31, c32. auto.
Qed.

Lemma length_loop_length (d : descartes_t) fuel :
  forall auxCirc auxDist vert lenght l,
    length_loop d fuel auxCirc auxDist vert lenght = Ok l ->
    exists k, List.length l = (3 * k)%nat.
Proof.
  induction fuel as [|fuel IH]; simpl; intros auxCirc auxDist vert lenght l Hl;
    [discriminate|].
  bind_inv Hl. apply lift_Ok in Ha.
  destruct a as [[[new circle] auxDist']|].
  - bind_inv Hl. injection Hl as <-.
    apply length_body_shape in Ha as (c31 & c32 & _ & -> & _).
    apply IH in Ha0 as [k Hk]. exists (S k). simpl. rewrite Hk. lia.
  - injection Hl as <-. exists 0%nat. reflexivity.
Qed.

Lemma branches_length_mode (d : descartes_t) fuel self lenght vds :
  forall l,
    branches d fuel self None (Some lenght) vds = Ok l ->
    exists k, List.length l = (3 * k)%nat.
Proof.
  induction vds as [|[vert distance] vds IH]; simpl; intros l Hl.
  - injection Hl as <-. exists 0%nat. reflexivity.
  - bind_inv Hl. bind_inv Hl. injection Hl as <-.
    apply length_loop_length in Ha as [k Hk].
    apply IH in Ha0 as [k' Hk'].
    exists (k + k')%nat. rewrite length_app. lia.
Qed.




(** ** The depth-bounded mode *)

Lemma depth_body_length (d : descartes_t) auxCirc auxDist vert
      new circle auxDist' :
  depth_body d auxCirc auxDist vert = Ok (new, circle, auxDist') ->
  List.length new = 9%nat /\ hd_error new = Some circle.
Proof.
  unfold depth_body. intros Hb.
  do 4 bind_inv Hb.
  do 6 (let p := fresh "p" in
        apply bind_Ok in Hb; destruct Hb as ([? ?] & p & Hb); cbv beta in Hb).
  injection Hb as <- <- <-. split; reflexivity.
Qed.

(** The circles of one vertex come level by level, nine at a time. *)
Lemma depth_loop_levels (d : descartes_t) n :
  forall auxCirc auxDist vert l,
    depth_loop d n auxCirc auxDist vert = Ok l ->
    exists levels,
      l = concat levels
      /\ List.length levels = n
      /\ Forall (fun level => List.length level = 9%nat) levels.
Proof.
  induction n as [|n IH]; simpl; intros auxCirc auxDist vert l Hl.
  - injection Hl as <-. exists []. auto.
  - apply bind_Ok in Hl. destruct Hl as ([[new circle] auxDist'] & Hb & Hl).
    bind_inv Hl. injection Hl as <-.
    apply depth_body_length in Hb as [Hb _].
    apply IH in Ha as (levels & -> & Hn & Hall).
    exists (new :: levels). simpl. auto.
Qed.

Lemma concat_length_9 (A : Type) (levels : list (list A)) :
  Forall (fun level => List.length level = 9%nat) levels ->
  List.length (concat levels) = (9 * List.length levels)%nat.
Proof.
  induction 1 as [|level levels Hl _ IH]; simpl; [reflexivity|].
  rewrite length_app, IH, Hl. lia.
Qed.

(** ** Where a [ValueError] can come from *)

Lemma length_loop_not_ValueError (d : descartes_t) fuel msg :
  forall auxCirc auxDist vert lenght,
    length_loop d fuel auxCirc auxDist vert lenght <> Raise (ValueError msg).
Proof.
  induction fuel as [|fuel IH]; simpl; intros; [discriminate|].
  destruct (length_body d auxCirc auxDist vert lenght)
    as [[[[new circle] auxDist']|]|e]; simpl; try discriminate.
  specialize (IH circle auxDist' vert lenght).
  destruct (length_loop d fuel circle auxDist' vert lenght); simpl;
    congruence.
Qed.

Lemma branch_not_ValueError (d : descartes_t) fuel self depth lenght vert
      distance msg :
  branch d fuel self depth lenght vert distance <> Raise (ValueError msg).
Proof.
  unfold branch. destruct depth as [z|], lenght as [l|]; try discriminate.
  - destruct (0 <=? z)%Z; [apply lift_not_ValueError | discriminate].
  - apply length_loop_not_ValueError.
Qed.

Lemma branches_not_ValueError (d : descartes_t) fuel self depth lenght vds msg :
  branches d fuel self depth lenght vds <> Raise (ValueError msg).
Proof.
  induction vds as [|[vert distance] vds IH]; simpl; [discriminate|].
  pose proof (branch_not_ValueError d fuel self depth lenght vert distance msg).
  destruct (branch d fuel self depth lenght vert distance); simpl;
    [|congruence].
  destruct (branches d fuel self depth lenght vds); simpl; congruence.
Qed.

(** What the call does once the two spellings of the length are merged. *)
Lemma circInTriangle_merged fuel self depth lenght want2plot length :
  conflicting lenght length = false ->
  circInTriangle fuel self depth lenght want2plot length
  = (new <- branches descartesTheorem fuel self depth
              (effective_length lenght length)
              (combine (vertices_values (vertices self))
                       (distToIncenter self)) ;;
     let l := incircle self :: new in
     if want2plot
     then Ok (set_lstCirc self l, None, Some (drawn (set_lstCirc self l) l))
     else Ok (set_lstCirc self l, Some l, None))%py.
Proof.
  intros Hc. unfold circInTriangle, circInTriangle_with.
  destruct length as [x|], lenght as [y|]; simpl in *;
    try rewrite Hc; reflexivity.
Qed.

(** ** The length of the returned list, whenever the call returns *)

Lemma Triangle_init_shape (coordinates : Point F * Point F * Point F) self :
  Triangle_init coordinates = Ok self ->
  vertices self = coordinates
  /\ length (distToIncenter self) = 3%nat
  /\ lstCirc self = None.
Proof.
  unfold Triangle_init, getGeomProperties.
  destruct coordinates as [[A B] C]. intros Hi.
  do 4 bind_inv Hi. injection Hi as <-. repeat split.
Qed.

Lemma branches_depth_length (d : descartes_t) fuel self depth vds :
  (0 <= depth)%Z ->
  forall l,
    branches d fuel self (Some depth) None vds = Ok l ->
    length l = (9 * Z.to_nat depth * length vds)%nat.
Proof.
  intros Hdepth.
  induction vds as [|[vert distance] vds IH]; simpl; intros l Hl.
  - injection Hl as <-. simpl. lia.
  - bind_inv Hl. bind_inv Hl. injection Hl as <-.
    unfold branch in Ha.
    destruct (Z.leb_spec 0 depth) as [_|Hneg]; [|lia].
    apply lift_Ok, depth_loop_levels in Ha as (levels & -> & Hn & Hall).
    rewrite length_app, (IH _ Ha0), concat_length_9, Hn by assumption. lia.
Qed.

Lemma depth_mode_length (coordinates : Point F * Point F * Point F) fuel self
      depth out :
  Triangle_init coordinates = Ok self ->
  (0 <= depth)%Z ->
  circInTriangle fuel self (Some depth) None false None = Ok out ->
  exists l,
    snd (fst out) = Some l /\ Z.of_nat (length l) = (1 + 27 * depth)%Z.
Proof.
  intros Hi Hdepth Hcall.
  apply Triangle_init_shape in Hi as (Hv & Hd & _).
  rewrite circInTriangle_merged in Hcall by reflexivity.
  simpl effective_length in Hcall. bind_inv Hcall. injection Hcall as <-.
  apply branches_depth_length in Ha; [|assumption].
  eexists. split; [reflexivity|]. cbn [length]. rewrite Ha.
  rewrite length_combine, Hd.
  destruct (vertices self) as [[A B] C]. cbn [vertices_values length]. lia.
Qed.

Lemma length_mode_length fuel self lenght out :
  circInTriangle fuel self None (Some lenght) false None = Ok out ->
  exists l k, snd (fst out) = Some l /\ length l = (1 + 3 * k)%nat.
Proof.
  intros Hcall. rewrite circInTriangle_merged in Hcall by reflexivity.
  simpl effective_length in Hcall. bind_inv Hcall. injection Hcall as <-.
  apply branches_length_mode in Ha as [k Hk].
  exists (incircle self :: a), k. split; [reflexivity|].
  cbn [length]. lia.
Qed.

End Structure.

(** * Exact arithmetic *)

(** ** The operations where they do not raise *)

Lemma Rdiv_checked_Ok x y : y <> 0 -> Rdiv_checked x y = Ok (x / y).
Proof. intros Hy. unfold Rdiv_checked. destruct (Req_dec_T y 0); [contradiction|reflexivity]. Qed.

Lemma Rnpdiv_Ok x y : y <> 0 -> Rnpdiv x y = Ok (x / y).
Proof. intros Hy. unfold Rnpdiv. destruct (Req_dec_T y 0); [contradiction|reflexivity]. Qed.

Lemma Rpow_half_Ok x : 0 <= x -> Rpow_half x = Ok (sqrt x).
Proof. intros Hx. unfold Rpow_half. destruct (Rlt_dec x 0); [lra|reflexivity]. Qed.

Lemma Rpow_neg1_Ok x : x <> 0 -> Rpow_neg1 x = Ok (/ x).
Proof. intros Hx. unfold Rpow_neg1. destruct (Req_dec_T x 0); [contradiction|reflexivity]. Qed.

Lemma Circle_init_R c r : r <> 0 -> Circle_init c r = Ok (Rcircle c r).
Proof.
  intros Hr. unfold Circle_init. cbn.
  rewrite Rdiv_checked_Ok by assumption. reflexivity.
Qed.

Lemma Circle_init_R_inv c r (circle : Circle R) :
  Circle_init c r = Ok circle -> circle = Rcircle c r /\ r <> 0.
Proof.
  unfold Circle_init. cbn. unfold Rdiv_checked.
  destruct (Req_dec_T r 0) as [Hz|Hz]; cbn; [discriminate|].
  intros Hc. injection Hc as <-. split; [reflexivity | assumption].
Qed.


(** ** Squares and square roots *)

Lemma sq_nonneg x : 0 <= x * x.
Proof. nra. Qed.

Lemma sq_sum_nonneg a b : 0 <= a * a + b * b.
Proof. nra. Qed.

Lemma sq_pos_of_neq a b : a <> b -> 0 < (a - b) * (a - b).
Proof.
  intros Hab. assert (Hd : a - b <> 0) by lra.
  apply Rsqr_pos_lt in Hd. exact Hd.
Qed.

Lemma sqrt_sq_pos x y : 0 <= y -> x = y * y -> sqrt x = y.
Proof. intros Hy ->. apply sqrt_square. assumption. Qed.

Lemma lt_sqrt_of_sq x e : 0 <= x -> x * x < e -> x < sqrt e.
Proof.
  intros Hx Hlt. rewrite <- (sqrt_square x Hx).
  apply sqrt_lt_1_alt. split; [nra | assumption].
Qed.

Lemma Rdist_sym P Q : Rdist P Q = Rdist Q P.
Proof. unfold Rdist. f_equal. ring. Qed.

Lemma Rdist_sq P Q :
  Rdist P Q * Rdist P Q
  = (fst P - fst Q) * (fst P - fst Q) + (snd P - snd Q) * (snd P - snd Q).
Proof. unfold Rdist. apply sqrt_sqrt, sq_sum_nonneg. Qed.

Lemma Rdist_nonneg P Q : 0 <= Rdist P Q.
Proof. unfold Rdist. apply sqrt_pos. Qed.

(** ** The tangent-circle construction *)

(** The chord of the two circles of radii [r0 + r] and [r1 + r] whose
    centres are [r0 + r1] apart is real: the argument of the square root
    is positive whatever the three radii. *)
Lemma half_chord_arg r0 r1 r :
  r0 + r1 <> 0 ->
  (r0 + r) * (r0 + r) - chord_dist r0 r1 r * chord_dist r0 r1 r
  = 4 * r0 * r1 * r * (r0 + r1 + r) / ((r0 + r1) * (r0 + r1)).
Proof. intros Hd. unfold chord_dist. field. assumption. Qed.

Lemma half_chord_arg_pos r0 r1 r :
  0 < r0 -> 0 < r1 -> 0 < r ->
  0 < (r0 + r) * (r0 + r) - chord_dist r0 r1 r * chord_dist r0 r1 r.
Proof.
  intros H0 H1 Hr. rewrite half_chord_arg by lra.
  apply Rdiv_lt_0_compat; [|nra].
  repeat apply Rmult_lt_0_compat; lra.
Qed.


Lemma special_radius_pos r0 r1 : 0 < r0 -> 0 < r1 -> 0 < special_radius r0 r1.
Proof.
  intros H0 H1. unfold special_radius. apply Rinv_0_lt_compat.
  assert (0 < 1 / r0) by (apply Rdiv_lt_0_compat; lra).
  assert (0 < 1 / r1) by (apply Rdiv_lt_0_compat; lra).
  pose proof (sqrt_pos (1 / r0 * (1 / r1))). lra.
Qed.

Lemma general_radius_pos r0 r1 r2 :
  0 < r0 -> 0 < r1 -> 0 < r2 -> 0 < general_radius r0 r1 r2.
Proof.
  intros H0 H1 H2. unfold general_radius. apply Rinv_0_lt_compat.
  assert (0 < 1 / r0) by (apply Rdiv_lt_0_compat; lra).
  assert (0 < 1 / r1) by (apply Rdiv_lt_0_compat; lra).
  assert (0 < 1 / r2) by (apply Rdiv_lt_0_compat; lra).
  pose proof (sqrt_pos (1 / r0 * (1 / r1) + 1 / r1 * (1 / r2) + 1 / r2 * (1 / r0))). lra.
Qed.

Lemma general_radius_lt r0 r1 r2 :
  0 < r0 -> 0 < r1 -> 0 < r2 ->
  general_radius r0 r1 r2
  < / (1 / r0 + 1 / r1 + 1 / r2
       + 2 * sqrt (1 / r0 * (1 / r1) + 1 / r1 * (1 / r2) + 1 / r2 * (1 / r0))).
Proof.
  intros H0 H1 H2. unfold general_radius.
  assert (0 < 1 / r0) by (apply Rdiv_lt_0_compat; lra).
  assert (0 < 1 / r1) by (apply Rdiv_lt_0_compat; lra).
  assert (0 < 1 / r2) by (apply Rdiv_lt_0_compat; lra).
  pose proof (sqrt_pos (1 / r0 * (1 / r1) + 1 / r1 * (1 / r2)
                        + 1 / r2 * (1 / r0))).
  apply Rinv_lt_contravar; [|lra].
  apply Rmult_lt_0_compat; lra.
Qed.

(** The end of [descartesTheorem], from [cos, sin] on. *)
Ltac descartes_tail H0 H1 Hr :=
  cbn;
  rewrite !Rnpdiv_Ok by lra; cbn;
  rewrite Rdiv_checked_Ok by lra; cbn;
  rewrite Rpow_half_Ok by (left; apply half_chord_arg_pos; assumption); cbn;
  rewrite !Circle_init_R by lra; reflexivity.

Lemma descartes_special_R O0 r0 O1 r1 :
  0 < r0 -> 0 < r1 ->
  descartesTheorem (Rcircle O0 r0) (Rcircle O1 r1) None
  = Ok (Rcircle (center3_of O0 O1 r0 r1 (special_radius r0 r1))
                (special_radius r0 r1),
        Rcircle (center4_of O0 O1 r0 r1 (special_radius r0 r1))
                (special_radius r0 r1)).
Proof.
  intros H0 H1. set (r := special_radius r0 r1).
  assert (Hr : 0 < r) by (apply special_radius_pos; assumption).
  assert (0 < 1 / r0) by (apply Rdiv_lt_0_compat; lra).
  assert (0 < 1 / r1) by (apply Rdiv_lt_0_compat; lra).
  unfold descartesTheorem. cbn.
  rewrite Rpow_half_Ok by nra. cbn.
  pose proof (sqrt_pos (1 / r0 * (1 / r1))).
  rewrite Rpow_neg1_Ok by lra.
  fold (special_radius r0 r1). fold r.
  descartes_tail H0 H1 Hr.
Qed.

Lemma descartes_general_R O0 r0 O1 r1 O2 r2 :
  0 < r0 -> 0 < r1 -> 0 < r2 ->
  descartesTheorem (Rcircle O0 r0) (Rcircle O1 r1) (Some (Rcircle O2 r2))
  = Ok (Rcircle (center3_of O0 O1 r0 r1 (general_radius r0 r1 r2))
                (general_radius r0 r1 r2),
        Rcircle (center4_of O0 O1 r0 r1 (general_radius r0 r1 r2))
                (general_radius r0 r1 r2)).
Proof.
  intros H0 H1 H2. set (r := general_radius r0 r1 r2).
  assert (Hr : 0 < r) by (apply general_radius_pos; assumption).
  assert (0 < 1 / r0) by (apply Rdiv_lt_0_compat; lra).
  assert (0 < 1 / r1) by (apply Rdiv_lt_0_compat; lra).
  assert (0 < 1 / r2) by (apply Rdiv_lt_0_compat; lra).
  unfold descartesTheorem. cbn.
  rewrite Rpow_half_Ok by nra. cbn.
  pose proof (sqrt_pos (1 / r0 * (1 / r1) + 1 / r1 * (1 / r2) + 1 / r2 * (1 / r0))).
  rewrite Rpow_neg1_Ok by lra.
  fold (general_radius r0 r1 r2). fold r.
  descartes_tail H0 H1 Hr.
Qed.




(** ** The placement step *)

Lemma next_radius_pos r d : 0 < r -> r < d -> 0 < next_radius r d.
Proof.
  intros Hr Hd. unfold next_radius. apply Rdiv_lt_0_compat; nra.
Qed.

Lemma next_distance O V r d :
  0 < r -> r < d -> Rdist V O = d ->
  Rdist V (next_center O V r d) = d * (d - r) / (r + d).
Proof.
  intros Hr Hd HO.
  assert (Hsq : (fst V - fst O) * (fst V - fst O)
                + (snd V - snd O) * (snd V - snd O) = d * d).
  { rewrite <- HO. unfold Rdist. symmetry. apply sqrt_sqrt, sq_sum_nonneg. }
  unfold Rdist, next_center. cbn [fst snd].
  apply sqrt_sq_pos.
  - apply Rlt_le, Rdiv_lt_0_compat; nra.
  - set (q := (r + next_radius r d) / d).
    transitivity ((1 - q) * (1 - q)
                  * ((fst V - fst O) * (fst V - fst O)
                     + (snd V - snd O) * (snd V - snd O))); [ring|].
    rewrite Hsq. unfold q, next_radius. field. lra.
Qed.

Lemma next_distance_gt O V r d :
  0 < r -> r < d -> Rdist V O = d ->
  next_radius r d < Rdist V (next_center O V r d).
Proof.
  intros Hr Hd HO. rewrite (next_distance O V r d Hr Hd HO).
  unfold next_radius.
  apply Rmult_lt_compat_r; [apply Rinv_0_lt_compat; lra | nra].
Qed.

Lemma next_radius_shrink r d : 0 < r -> r < d -> next_radius r d = r * shrink r d.
Proof. intros. unfold next_radius, shrink. field. lra. Qed.


Lemma shrink_bounds r d : 0 < r -> r < d -> 0 < shrink r d < 1.
Proof.
  intros Hr Hd. unfold shrink. split.
  - apply Rdiv_lt_0_compat; lra.
  - apply (Rmult_lt_reg_r (d + r)); [lra|].
    unfold Rdiv. rewrite Rmult_assoc, Rinv_l by lra. lra.
Qed.


Lemma depth_body_R O V r d :
  0 < r -> r < d ->
  exists new,
    depth_body descartesTheorem (Rcircle O r) d V
    = Ok (new, Rcircle (next_center O V r d) (next_radius r d),
          Rdist V (next_center O V r d)).
Proof.
  intros Hr Hd.
  pose proof (next_radius_pos r d Hr Hd) as Hn.
  unfold depth_body. cbn.
  rewrite Rdiv_checked_Ok by lra. cbn.
  fold (next_radius r d).
  rewrite Rdiv_checked_Ok by lra. cbn.
  fold (next_center O V r d).
  rewrite Circle_init_R by lra. cbv beta iota delta [bind].
  pose proof (special_radius_pos r (next_radius r d) Hr Hn) as Hs.
  rewrite descartes_special_R by assumption. cbv beta iota delta [bind].
  rewrite descartes_general_R by assumption. cbv beta iota delta [bind].
  rewrite !descartes_special_R by assumption. cbv beta iota delta [bind].
  eexists. reflexivity.
Qed.

Lemma length_body_R O V r d lenght :
  0 < r -> r < d ->
  length_body descartesTheorem (Rcircle O r) d V lenght
  = if Rle_dec (2 * next_radius r d) lenght then Ok None
    else Ok (Some
      ([Rcircle (next_center O V r d) (next_radius r d);
        Rcircle (center3_of O (next_center O V r d) r (next_radius r d)
                   (special_radius r (next_radius r d)))
                (special_radius r (next_radius r d));
        Rcircle (center4_of O (next_center O V r d) r (next_radius r d)
                   (special_radius r (next_radius r d)))
                (special_radius r (next_radius r d))],
       Rcircle (next_center O V r d) (next_radius r d),
       Rdist V (next_center O V r d))).
Proof.
  intros Hr Hd.
  pose proof (next_radius_pos r d Hr Hd) as Hn.
  unfold length_body. cbn.
  rewrite Rdiv_checked_Ok by lra. cbn.
  fold (next_radius r d). unfold Rleb.
  destruct (Rle_dec (2 * next_radius r d) lenght); [reflexivity|].
  rewrite Rdiv_checked_Ok by lra. cbn.
  fold (next_center O V r d).
  rewrite Circle_init_R by lra. cbv beta iota delta [bind].
  rewrite descartes_special_R by assumption. reflexivity.
Qed.

(** ** The incircle *)

(** Each vertex is farther from the incentre than the inradius: with
    [u = Q - P] and [v = S - P], the squared distance exceeds the squared
    inradius by [(|u||v| + u.v)^2 / p^2]. *)
Lemma vertex_outside (P Q S : Point R) (w p Ix Iy : R) :
  0 < p ->
  p = w + Rdist P S + Rdist P Q ->
  cross P Q S <> 0 ->
  Ix = (w * fst P + Rdist P S * fst Q + Rdist P Q * fst S) / p ->
  Iy = (w * snd P + Rdist P S * snd Q + Rdist P Q * snd S) / p ->
  Rabs (cross P Q S) / p < Rdist (Ix, Iy) P.
Proof.
  intros Hp Hsum Hcr HIx HIy.
  pose proof (Rdist_sq P Q) as Hm. pose proof (Rdist_sq P S) as Hn.
  pose proof (Rdist_nonneg P Q) as Hm0. pose proof (Rdist_nonneg P S) as Hn0.
  set (m := Rdist P Q) in *. set (n := Rdist P S) in *.
  unfold cross in *.
  set (ux := fst Q - fst P) in *. set (uy := snd Q - snd P) in *.
  set (vx := fst S - fst P) in *. set (vy := snd S - snd P) in *.
  assert (Hm' : m * m = ux * ux + uy * uy) by (rewrite Hm; unfold ux, uy; ring).
  assert (Hn' : n * n = vx * vx + vy * vy) by (rewrite Hn; unfold vx, vy; ring).
  set (cr := ux * vy - uy * vx) in *.
  set (uv := ux * vx + uy * vy).
  assert (Hdx : Ix - fst P = (n * ux + m * vx) / p).
  { rewrite HIx. unfold ux, vx. rewrite Hsum. field. lra. }
  assert (Hdy : Iy - snd P = (n * uy + m * vy) / p).
  { rewrite HIy. unfold uy, vy. rewrite Hsum. field. lra. }
  assert (Hnum : (n * ux + m * vx) * (n * ux + m * vx)
                 + (n * uy + m * vy) * (n * uy + m * vy)
                 = cr * cr + (m * n + uv) * (m * n + uv)).
  { transitivity (cr * cr + (m * n + uv) * (m * n + uv)
                  - (ux * ux + uy * uy - m * m) * (vx * vx + vy * vy - n * n)).
    - unfold cr, uv. ring.
    - rewrite <- Hm', <- Hn'. ring. }
  assert (Hne : m * n + uv <> 0).
  { intros Hz. apply Hcr.
    assert (Hc2 : cr * cr = (m * n - uv) * (m * n + uv)).
    { transitivity ((m * n - uv) * (m * n + uv)
                    + (ux * ux + uy * uy - m * m) * (vx * vx + vy * vy - n * n)
                    + (m * m) * (vx * vx + vy * vy - n * n)
                    + (n * n) * (ux * ux + uy * uy - m * m)).
      - unfold cr, uv. ring.
      - rewrite <- Hm', <- Hn'. ring. }
    rewrite Hz, Rmult_0_r in Hc2. nra. }
  apply lt_sqrt_of_sq.
  - apply Rmult_le_pos; [apply Rabs_pos | left; apply Rinv_0_lt_compat; lra].
  - cbn [fst snd]. rewrite Hdx, Hdy.
    replace (Rabs cr / p * (Rabs cr / p)) with (cr * cr / (p * p)).
    2:{ assert (Habs : Rabs cr * Rabs cr = cr * cr).
        { rewrite <- Rabs_mult. apply Rabs_right. nra. }
        rewrite <- Habs. field. lra. }
    replace ((n * ux + m * vx) / p * ((n * ux + m * vx) / p)
             + (n * uy + m * vy) / p * ((n * uy + m * vy) / p))
      with ((cr * cr + (m * n + uv) * (m * n + uv)) / (p * p)).
    2:{ rewrite <- Hnum. field. lra. }
    apply Rmult_lt_compat_r; [apply Rinv_0_lt_compat; nra | nra].
Qed.

Lemma Rdist_pos_of_cross A B C : cross A B C <> 0 -> 0 < Rdist A B.
Proof.
  intros Hc. unfold Rdist. apply sqrt_lt_R0.
  destruct (Req_dec (fst A) (fst B)) as [Hx|Hx];
    [destruct (Req_dec (snd A) (snd B)) as [Hy|Hy]|].
  - exfalso. apply Hc. unfold cross. rewrite Hx, Hy. ring.
  - pose proof (sq_pos_of_neq _ _ Hy).
    pose proof (sq_nonneg (fst A - fst B)). lra.
  - pose proof (sq_pos_of_neq _ _ Hx).
    pose proof (sq_nonneg (snd A - snd B)). lra.
Qed.

Lemma Rperimeter_pos A B C : cross A B C <> 0 -> 0 < Rperimeter A B C.
Proof.
  intros Hc. unfold Rperimeter.
  pose proof (Rdist_pos_of_cross A B C Hc).
  pose proof (Rdist_nonneg B C). pose proof (Rdist_nonneg A C). lra.
Qed.

Lemma inradius_pos A B C : cross A B C <> 0 -> 0 < inradius A B C.
Proof.
  intros Hc. unfold inradius.
  apply Rdiv_lt_0_compat; [apply Rabs_pos_lt; assumption|].
  apply Rperimeter_pos; assumption.
Qed.

Lemma incircle_inside A B C :
  cross A B C <> 0 ->
  inradius A B C < Rdist (incenter A B C) A
  /\ inradius A B C < Rdist (incenter A B C) B
  /\ inradius A B C < Rdist (incenter A B C) C.
Proof.
  intros Hc. pose proof (Rperimeter_pos A B C Hc) as Hp.
  unfold inradius, incenter. repeat split.
  - apply (vertex_outside A B C (Rdist B C)); try assumption; reflexivity.
  - replace (Rabs (cross A B C)) with (Rabs (cross B A C)).
    2:{ replace (cross B A C) with (- cross A B C) by (unfold cross; ring).
        apply Rabs_Ropp. }
    apply (vertex_outside B A C (Rdist A C)); try assumption.
    + unfold Rperimeter. rewrite (Rdist_sym B A). ring.
    + intros Hz. apply Hc. unfold cross in *. lra.
    + rewrite (Rdist_sym B A). f_equal. ring.
    + rewrite (Rdist_sym B A). f_equal. ring.
  - replace (cross A B C) with (cross C A B) by (unfold cross; ring).
    apply (vertex_outside C A B (Rdist A B)); try assumption.
    + unfold Rperimeter. rewrite (Rdist_sym C B), (Rdist_sym C A). ring.
    + intros Hz. apply Hc. unfold cross in *. lra.
    + rewrite (Rdist_sym C B), (Rdist_sym C A). f_equal. ring.
    + rewrite (Rdist_sym C B), (Rdist_sym C A). f_equal. ring.
Qed.

Lemma Triangle_init_R A B C :
  cross A B C <> 0 -> Triangle_init (A, B, C) = Ok (Rtriangle A B C).
Proof.
  intros Hc. pose proof (Rperimeter_pos A B C Hc) as Hp.
  pose proof (inradius_pos A B C Hc) as Hr.
  unfold Triangle_init, getGeomProperties. cbn.
  change (sqrt ((fst B - fst C) * (fst B - fst C) + (snd B - snd C) * (snd B - snd C))) with (Rdist B C).
  change (sqrt ((fst A - fst C) * (fst A - fst C) + (snd A - snd C) * (snd A - snd C))) with (Rdist A C).
  change (sqrt ((fst A - fst B) * (fst A - fst B) + (snd A - snd B) * (snd A - snd B))) with (Rdist A B).
  fold (Rperimeter A B C).
  rewrite !Rnpdiv_Ok by lra. cbn.
  replace (2 * (1 / 2 * Rabs (0 + (fst A * snd B - snd A * fst B)
                              + (fst B * snd C - snd B * fst C)
                              + (fst C * snd A - snd C * fst A)))
           / Rperimeter A B C)
    with (inradius A B C).
  2:{ unfold inradius.
      replace (cross A B C)
        with (0 + (fst A * snd B - snd A * fst B)
              + (fst B * snd C - snd B * fst C)
              + (fst C * snd A - snd C * fst A)) by (unfold cross; ring).
      field. lra. }
  rewrite Circle_init_R by lra. reflexivity.
Qed.

(** ** The loops, from a circle the vertex lies outside of *)



(** * The claims *)

(** ** The tangent-circle construction *)

(** C1.  The claim asks for the Descartes relation with no other term in the
    sum; the general case of [descartesTheorem] adds [circle2.radius] to
    the curvatures.  On the mutually tangent circles of radii 1, 2 and 3
    centred at (0,0), (3,0) and (0,4), the call returns two circles of
    radius 6/41, where the Descartes relation gives 6/23. *)
Theorem descartes_general_adds_radius :
  exists self circle1 circle2 c3 c4,
    Circle_init (0, 0) 1 = Ok self
    /\ Circle_init (3, 0) 2 = Ok circle1
    /\ Circle_init (0, 4) 3 = Ok circle2
    /\ _euclidean_distance (center self) (center circle1)
       = radius self + radius circle1
    /\ _euclidean_distance (center self) (center circle2)
       = radius self + radius circle2
    /\ _euclidean_distance (center circle1) (center circle2)
       = radius circle1 + radius circle2
    /\ descartesTheorem self circle1 (Some circle2) = Ok (c3, c4)
    /\ radius c3 = 6 / 41
    /\ radius c4 = 6 / 41
    /\ / (curvature self + curvature circle1 + curvature circle2
          + 2 * sqrt (curvature self * curvature circle1
                      + curvature circle1 * curvature circle2
                      + curvature circle2 * curvature self)) = 6 / 23.
Proof.
  exists (Rcircle (0, 0) 1), (Rcircle (3, 0) 2), (Rcircle (0, 4) 3).
  eexists. eexists.
  split; [apply Circle_init_R; lra|].
  split; [apply Circle_init_R; lra|].
  split; [apply Circle_init_R; lra|].
  assert (Hs : sqrt (1 / 1 * (1 / 2) + 1 / 2 * (1 / 3) + 1 / 3 * (1 / 1)) = 1).
  { apply sqrt_sq_pos; lra. }
  split; [cbn; apply sqrt_sq_pos; lra|].
  split; [cbn; apply sqrt_sq_pos; lra|].
  split; [cbn; apply sqrt_sq_pos; lra|].
  split; [apply descartes_general_R; lra|].
  cbn [radius curvature Rcircle]. unfold general_radius. rewrite Hs.
  repeat split; field.
Qed.





(** The circle returned for these two circles is centred at (5, 15/4) with
    radius 1/4: it is 25/4 away from the centre of [circle1], not 5/4. *)
Example descartes_not_tangent :
  descartesTheorem (Rcircle (0, 0) 1) (Rcircle (10, 0) 1) None
  = Ok (Rcircle (5, 15 / 4) (1 / 4), Rcircle (5, - (15 / 4)) (1 / 4))
  /\ _euclidean_distance (5, 15 / 4) (10, 0) = 25 / 4.
Proof.
  split.
  - rewrite descartes_special_R by lra.
    assert (Hr : special_radius 1 1 = 1 / 4).
    { unfold special_radius.
      replace (1 / 1 * (1 / 1)) with 1 by field. rewrite sqrt_1. field. }
    assert (Hc : chord_dist 1 1 (1 / 4) = 1) by (unfold chord_dist; field).
    assert (Hh : half_chord 1 1 (1 / 4) = 3 / 4).
    { unfold half_chord. rewrite Hc. apply sqrt_sq_pos; lra. }
    assert (H3 : center3_of (0, 0) (10, 0) 1 1 (1 / 4) = (5, 15 / 4)).
    { unfold center3_of. rewrite Hc, Hh. cbn [fst snd]. f_equal; field. }
    assert (H4 : center4_of (0, 0) (10, 0) 1 1 (1 / 4) = (5, - (15 / 4))).
    { unfold center4_of. rewrite Hc, Hh. cbn [fst snd]. f_equal; field. }
    rewrite Hr, H3, H4. reflexivity.
  - cbn. apply sqrt_sq_pos; lra.
Qed.


(** In binary64 the radii of a deep packing underflow and the call ends in
    the [ZeroDivisionError] of [Circle.__init__]. *)
Example deep_packing_raises :
  circInTriangle 0 test_triangle (Some 400%Z) None false None
  = Raise (ArithmeticError ZeroDivisionError).
Proof. vm_compute. reflexivity. Qed.

(** ** The packing loop, for every arithmetic *)

Section Calls.

Context {F : Type} `{Arith F}.

(** C4.  With [depth=0] and no length the call returns the one-element
    list made of the incircle (and keeps it in [lstCirc]). *)
Theorem depth_zero_is_incircle (fuel : nat) (self : Triangle F) :
  circInTriangle fuel self (Some 0%Z) None false None
  = Ok (set_lstCirc self [incircle self], Some [incircle self], None).
Proof.
  rewrite circInTriangle_merged by reflexivity. simpl effective_length.
  rewrite branches_depth_zero. reflexivity.
Qed.

(** C6, as amended.  The only configuration error is the [ValueError]
    raised when [length] and [lenght] are both given and differ.  With
    both [depth] and a length, with neither, or with a negative [depth],
    the call raises nothing and returns the incircle alone.  Equal values
    of [length] and [lenght] give the result of either alone. *)
Theorem configuration_errors (fuel : nat) (self : Triangle F)
    (depth : option Z) (lenght : option F) (want2plot : bool)
    (length : option F) :
  ((exists msg,
       circInTriangle fuel self depth lenght want2plot length
       = Raise (ValueError msg))
   <-> (exists x y, length = Some x /\ lenght = Some y /\ fne x y = true))
  /\ (conflicting lenght length = false ->
      skips depth (effective_length lenght length) = true ->
      circInTriangle fuel self depth lenght false length
      = Ok (set_lstCirc self [incircle self], Some [incircle self], None))
  /\ (forall x,
         fne x x = false ->
         circInTriangle fuel self depth (Some x) want2plot (Some x)
         = circInTriangle fuel self depth None want2plot (Some x))
  /\ (forall x,
         circInTriangle fuel self depth None want2plot (Some x)
         = circInTriangle fuel self depth (Some x) want2plot None).
Proof.
  split; [split|split; [|split]].
  - intros [msg Hraise].
    destruct (conflicting lenght length) eqn:Hc.
    + unfold conflicting in Hc.
      destruct length as [x|]; [|discriminate].
      destruct lenght as [y|]; [|discriminate]. eauto.
    + rewrite circInTriangle_merged in Hraise by assumption.
      pose proof (branches_not_ValueError descartesTheorem fuel self depth
                    (effective_length lenght length)
                    (combine (vertices_values (vertices self))
                             (distToIncenter self)) msg) as Hb.
      destruct (branches _ _ _ _ _ _); cbn [bind] in Hraise;
        [destruct want2plot; discriminate | congruence].
  - intros (x & y & -> & -> & Hne).
    unfold circInTriangle, circInTriangle_with. rewrite Hne. cbn [bind].
    eauto.
  - intros Hc Hs. rewrite circInTriangle_merged by assumption.
    rewrite branches_skips by assumption. reflexivity.
  - intros x Hx. rewrite !circInTriangle_merged by (simpl; auto). reflexivity.
  - intros x. rewrite !circInTriangle_merged by reflexivity. reflexivity.
Qed.

(** C8.  A second call with the same arguments, on the object as the first
    call left it, ends as the first did: same object, same returned list,
    same figure. *)
Theorem second_call_same (fuel : nat) (self : Triangle F) (depth : option Z)
    (lenght : option F) (want2plot : bool) (length : option F)
    (out : Triangle F * option (list (Circle F)) * option (Axes F)) :
  circInTriangle fuel self depth lenght want2plot length = Ok out ->
  circInTriangle fuel (fst (fst out)) depth lenght want2plot length = Ok out.
Proof.
  unfold circInTriangle, circInTriangle_with. intros Hcall.
  bind_inv Hcall. rewrite Ha. cbn [bind].
  bind_inv Hcall.
  assert (Hself : fst (fst out) = set_lstCirc self (incircle self :: a0)).
  { destruct want2plot; injection Hcall as <-; reflexivity. }
  rewrite Hself. cbn [vertices distToIncenter set_lstCirc incircle].
  rewrite branches_set_lstCirc, Ha0. cbn [bind].
  rewrite <- Hcall. reflexivity.
Qed.

(** C9.  Whenever the call with [want2plot=False] returns, it returns the
    list, which is also the new value of [lstCirc]; the call with
    [want2plot=True] then leaves the same object, draws the figure and
    returns [None].  When the former raises, so does the latter. *)
Theorem want2plot_returns_None (fuel : nat) (self : Triangle F)
    (depth : option Z) (lenght length : option F) :
  match circInTriangle fuel self depth lenght false length with
  | Ok (self', ret, figure) =>
      exists l,
        ret = Some l
        /\ figure = None
        /\ lstCirc self' = Some l
        /\ circInTriangle fuel self depth lenght true length
           = Ok (self', None, Some (drawn self' l))
  | Raise e => circInTriangle fuel self depth lenght true length = Raise e
  end.
Proof.
  unfold circInTriangle, circInTriangle_with.
  destruct (match length with
            | Some length0 => _
            | None => _
            end) as [lenght'|e]; cbn [bind]; [|reflexivity].
  destruct (branches _ _ _ _ _ _) as [new|e]; cbn [bind]; [|reflexivity].
  eexists. repeat split.
Qed.

End Calls.

Lemma second_call_same_witness :
  exists out,
    circInTriangle 0 test_triangle (Some 1%Z) None false None = Ok out
    /\ circInTriangle 0 (fst (fst out)) (Some 1%Z) None false None = Ok out.
Proof.
  eexists. split; [vm_compute; reflexivity|].
  apply (second_call_same 0 test_triangle). vm_compute. reflexivity.
Defined.

(** C6, as stated, fails: on the triangle of the tests, a call with neither
    [depth] nor a length, a call with both, and a call with a negative
    [depth] raise nothing and return the incircle. *)
Lemma invalid_configurations_accepted :
  let self := test_triangle in
  Triangle_init test_coordinates = Ok self
  /\ invalid_configuration (F := float) None None None = true
  /\ circInTriangle 0 self None None false None
     = Ok (set_lstCirc self [incircle self], Some [incircle self], None)
  /\ invalid_configuration (Some 2%Z) None (Some 0.5%float) = true
  /\ circInTriangle 0 self (Some 2%Z) None false (Some 0.5%float)
     = Ok (set_lstCirc self [incircle self], Some [incircle self], None)
  /\ invalid_configuration (F := float) (Some (-1)%Z) None None = true
  /\ circInTriangle 0 self (Some (-1)%Z) None false None
     = Ok (set_lstCirc self [incircle self], Some [incircle self], None).
Proof. repeat split; vm_compute; reflexivity. Qed.

(** ** The packing loop, in exact arithmetic *)

(** C3.  In both modes, a turn of the loop that places a circle gives it
    the radius [(R D - R^2) / (R + D)] and the centre
    [O + ((R + r) / D) (V - O)], puts it first among the circles it
    appends, and sets [auxDist] to the distance from the vertex to the new
    centre; a turn that returns has divided by [D], so [D] is not zero
    and no hypothesis on it is needed.  A turn that starts from a circle
    the vertex lies outside of ([0 < R < D]) does place one (in the
    length-bounded mode, unless the loop stops). *)
Theorem placement_step (auxCirc : Circle R) (vert : Point R)
    (auxDist lenght : R) :
  (forall new circle auxDist',
      depth_body descartesTheorem auxCirc auxDist vert
      = Ok (new, circle, auxDist') ->
      placed auxCirc auxDist vert circle auxDist'
      /\ hd_error new = Some circle)
  /\ (forall new circle auxDist',
         length_body descartesTheorem auxCirc auxDist vert lenght
         = Ok (Some (new, circle, auxDist')) ->
         placed auxCirc auxDist vert circle auxDist'
         /\ hd_error new = Some circle)
  /\ (Circle_init (center auxCirc) (radius auxCirc) = Ok auxCirc ->
      0 < radius auxCirc < auxDist ->
      (exists new circle auxDist',
          depth_body descartesTheorem auxCirc auxDist vert
          = Ok (new, circle, auxDist'))
      /\ (exists step,
             length_body descartesTheorem auxCirc auxDist vert lenght
             = Ok step
             /\ (step = None
                 <-> 2 * ((radius auxCirc * auxDist
                           - radius auxCirc * radius auxCirc)
                          / (radius auxCirc + auxDist)) <= lenght))).
Proof.
  split; [|split].
  - intros new circle auxDist'. unfold depth_body. cbn.
    unfold Rdiv_checked.
    destruct (Req_dec_T (radius auxCirc + auxDist) 0); cbn; [discriminate|].
    destruct (Req_dec_T auxDist 0); cbn; [discriminate|].
    intros Hb. bind_inv Hb. apply Circle_init_R_inv in Ha as [-> _].
    do 6 (let p := fresh "p" in
          apply bind_Ok in Hb; destruct Hb as ([? ?] & p & Hb);
          cbv beta iota in Hb).
    injection Hb as <- <- <-. repeat split.
  - intros new circle auxDist'. unfold length_body. cbn.
    unfold Rdiv_checked.
    destruct (Req_dec_T (radius auxCirc + auxDist) 0); cbn; [discriminate|].
    destruct (Rleb _ lenght); [discriminate|].
    destruct (Req_dec_T auxDist 0); cbn; [discriminate|].
    intros Hb. bind_inv Hb. apply Circle_init_R_inv in Ha as [-> _].
    apply bind_Ok in Hb. destruct Hb as ([c31 c32] & _ & Hb).
    cbv beta iota in Hb. injection Hb as <- <- <-. repeat split.
  - intros Hwf [Hr Hd].
    apply Circle_init_R_inv in Hwf as [Hwf _].
    set (O := center auxCirc) in *. set (r := radius auxCirc) in *.
    rewrite Hwf. split.
    + destruct (depth_body_R O vert r auxDist Hr Hd) as [new Hb].
      rewrite Hb. eauto.
    + rewrite (length_body_R O vert r auxDist lenght Hr Hd).
      fold (next_radius r auxDist).
      destruct (Rle_dec (2 * next_radius r auxDist) lenght) as [Hle|Hgt].
      * eexists. split; [reflexivity|]. tauto.
      * eexists. split; [reflexivity|]. split; [discriminate | tauto].
Qed.

(** From the circle of radius 1 at the origin towards the vertex (3, 0):
    the new circle has radius 1/2 and centre (3/2, 0). *)
Lemma placement_step_witness :
  exists new circle auxDist',
    depth_body descartesTheorem (Rcircle (0, 0) 1) 3 (3, 0)
    = Ok (new, circle, auxDist')
    /\ placed (Rcircle (0, 0) 1) 3 (3, 0) circle auxDist'
    /\ radius circle = 1 / 2
    /\ center circle = (3 / 2, 0).
Proof.
  destruct (placement_step (Rcircle (0, 0) 1) (3, 0) 3 1)
    as (Hdepth & _ & Hex).
  destruct Hex as [(new & circle & auxDist' & Hb) _].
  - apply Circle_init_R. lra.
  - cbn. lra.
  - exists new, circle, auxDist'.
    destruct (Hdepth new circle auxDist' Hb) as [Hp _].
    split; [exact Hb|]. split; [exact Hp|].
    destruct Hp as (Hr & Hc & _). cbn in Hr, Hc.
    split; [rewrite Hr; field|].
    rewrite Hc. f_equal; field.
Defined.





(** * Further properties *)

(** ** Circles and the tangent-circle construction *)


Lemma inv_lt_of_curvature (s x : R) : 0 < x -> 1 / x < s -> / s < x.
Proof.
  intros Hx Hs.
  assert (0 < 1 / x) by (apply Rdiv_lt_0_compat; lra).
  replace x with (/ (1 / x)) by (field; lra).
  apply Rinv_lt_contravar; [apply Rmult_lt_0_compat; lra | lra].
Qed.

Lemma special_radius_lt_l r0 r1 : 0 < r0 -> 0 < r1 -> special_radius r0 r1 < r0.
Proof.
  intros H0 H1. unfold special_radius.
  assert (0 < 1 / r1) by (apply Rdiv_lt_0_compat; lra).
  pose proof (sqrt_pos (1 / r0 * (1 / r1))).
  apply inv_lt_of_curvature; lra.
Qed.

Lemma special_radius_comm r0 r1 : special_radius r1 r0 = special_radius r0 r1.
Proof.
  unfold special_radius. rewrite (Rmult_comm (1 / r1)). f_equal. ring.
Qed.


Lemma general_radius_lt_each r0 r1 r2 :
  0 < r0 -> 0 < r1 -> 0 < r2 ->
  general_radius r0 r1 r2 < r0
  /\ general_radius r0 r1 r2 < r1
  /\ general_radius r0 r1 r2 < r2.
Proof.
  intros H0 H1 H2. unfold general_radius.
  assert (0 < 1 / r0) by (apply Rdiv_lt_0_compat; lra).
  assert (0 < 1 / r1) by (apply Rdiv_lt_0_compat; lra).
  assert (0 < 1 / r2) by (apply Rdiv_lt_0_compat; lra).
  pose proof (sqrt_pos (1 / r0 * (1 / r1) + 1 / r1 * (1 / r2)
                        + 1 / r2 * (1 / r0))).
  repeat split; apply inv_lt_of_curvature; lra.
Qed.

(** X2.  For circles of positive radius, the two circles returned by either
    case of [descartesTheorem] have the same positive radius, smaller
    than the radius of every circle passed to the call. *)
Theorem descartes_circles_smaller (O0 O1 O2 : Point R) (r0 r1 r2 : R) :
  0 < r0 -> 0 < r1 -> 0 < r2 ->
  exists self circle1 circle2 c3 c4 c5 c6,
    Circle_init O0 r0 = Ok self
    /\ Circle_init O1 r1 = Ok circle1
    /\ Circle_init O2 r2 = Ok circle2
    /\ descartesTheorem self circle1 None = Ok (c3, c4)
    /\ descartesTheorem self circle1 (Some circle2) = Ok (c5, c6)
    /\ radius c4 = radius c3
    /\ 0 < radius c3 /\ radius c3 < r0 /\ radius c3 < r1
    /\ radius c6 = radius c5
    /\ 0 < radius c5 /\ radius c5 < r0 /\ radius c5 < r1 /\ radius c5 < r2.
Proof.
  intros H0 H1 H2.
  exists (Rcircle O0 r0), (Rcircle O1 r1), (Rcircle O2 r2).
  do 4 eexists.
  split; [apply Circle_init_R; lra|].
  split; [apply Circle_init_R; lra|].
  split; [apply Circle_init_R; lra|].
  split; [apply descartes_special_R; assumption|].
  split; [apply descartes_general_R; assumption|].
  cbn [radius Rcircle].
  destruct (general_radius_lt_each r0 r1 r2 H0 H1 H2) as (G0 & G1 & G2).
  split; [reflexivity|].
  split; [apply special_radius_pos; assumption|].
  split; [apply special_radius_lt_l; assumption|].
  split; [rewrite <- special_radius_comm; apply special_radius_lt_l; assumption|].
  split; [reflexivity|].
  split; [apply general_radius_pos; assumption|].
  auto.
Qed.

Lemma descartes_circles_smaller_witness :
  exists self circle1 circle2 c3 c4 c5 c6,
    Circle_init (0, 0) 1 = Ok self
    /\ Circle_init (3, 0) 2 = Ok circle1
    /\ Circle_init (0, 4) 3 = Ok circle2
    /\ descartesTheorem self circle1 None = Ok (c3, c4)
    /\ descartesTheorem self circle1 (Some circle2) = Ok (c5, c6)
    /\ radius c4 = radius c3
    /\ 0 < radius c3 /\ radius c3 < 1 /\ radius c3 < 2
    /\ radius c6 = radius c5
    /\ 0 < radius c5 /\ radius c5 < 1 /\ radius c5 < 2 /\ radius c5 < 3.
Proof.
  apply (descartes_circles_smaller (0, 0) (3, 0) (0, 4) 1 2 3); lra.
Defined.












(** ** Triangles and their incircle *)

(** X6.  Three vertices on a line, not all equal, give an incircle of
    radius zero, and [Triangle(...)] ends in the [ZeroDivisionError] of
    [Circle.__init__]. *)
Theorem Triangle_init_collinear (A B C : Point R) :
  cross A B C = 0 -> Rperimeter A B C <> 0 ->
  Triangle_init (A, B, C) = Raise ZeroDivisionError.
Proof.
  intros Hc Hp. unfold Triangle_init, getGeomProperties. cbn.
  change (sqrt ((fst B - fst C) * (fst B - fst C)
                + (snd B - snd C) * (snd B - snd C))) with (Rdist B C).
  change (sqrt ((fst A - fst C) * (fst A - fst C)
                + (snd A - snd C) * (snd A - snd C))) with (Rdist A C).
  change (sqrt ((fst A - fst B) * (fst A - fst B)
                + (snd A - snd B) * (snd A - snd B))) with (Rdist A B).
  fold (Rperimeter A B C).
  rewrite !Rnpdiv_Ok by assumption. cbn.
  replace (0 + (fst A * snd B - snd A * fst B)
           + (fst B * snd C - snd B * fst C)
           + (fst C * snd A - snd C * fst A)) with (cross A B C)
    by (unfold cross; ring).
  rewrite Hc, Rabs_R0.
  replace (2 * (1 / 2 * 0) / Rperimeter A B C) with 0 by (field; assumption).
  unfold Circle_init. cbn. unfold Rdiv_checked.
  destruct (Req_dec_T 0 0) as [_|Hn]; [reflexivity | contradiction].
Qed.

Lemma Triangle_init_collinear_witness :
  Triangle_init ((0, 0), (3, 4), (6, 8)) = Raise ZeroDivisionError.
Proof.
  apply (Triangle_init_collinear (0, 0) (3, 4) (6, 8)).
  - unfold cross. cbn. lra.
  - unfold Rperimeter.
    pose proof (Rdist_nonneg (3, 4) (6, 8)).
    pose proof (Rdist_nonneg (0, 0) (6, 8)).
    assert (Rdist (0, 0) (3, 4) = 5)
      by (unfold Rdist; cbn; apply sqrt_sq_pos; lra).
    lra.
Defined.

Lemma Rabs_cross_swap V W P : Rabs (cross W V P) = Rabs (cross V W P).
Proof.
  replace (cross W V P) with (- cross V W P) by (unfold cross; ring).
  apply Rabs_Ropp.
Qed.

Lemma incircle_touches A B C :
  cross A B C <> 0 ->
  Rabs (cross A B (incenter A B C)) = inradius A B C * Rdist A B
  /\ Rabs (cross B C (incenter A B C)) = inradius A B C * Rdist B C
  /\ Rabs (cross C A (incenter A B C)) = inradius A B C * Rdist A C.
Proof.
  intros Hc. pose proof (Rperimeter_pos A B C Hc) as Hp.
  unfold cross, incenter, inradius. cbn [fst snd].
  fold (cross A B C).
  assert (Hscaled : forall s, 0 <= s ->
            Rabs (s * cross A B C / Rperimeter A B C)
            = Rabs (cross A B C) / Rperimeter A B C * s).
  { intros s Hs. unfold Rdiv. rewrite !Rabs_mult, (Rabs_right s) by lra.
    rewrite (Rabs_right (/ Rperimeter A B C)); [ring|].
    left. apply Rinv_0_lt_compat. assumption. }
  repeat split.
  - rewrite <- Hscaled by apply Rdist_nonneg. f_equal.
    unfold cross, Rperimeter in *. field. lra.
  - rewrite <- Hscaled by apply Rdist_nonneg. f_equal.
    unfold cross, Rperimeter in *. field. lra.
  - rewrite <- Hscaled by apply Rdist_nonneg. f_equal.
    unfold cross, Rperimeter in *. field. lra.
Qed.











(** ** The circles placed towards a vertex *)

Lemma next_center_closed O V r d :
  0 < r -> r < d ->
  next_center O V r d = bisector_center O V r d 1.
Proof.
  intros Hr Hd. unfold next_center, bisector_center, next_radius, shrink.
  cbn [fst snd pow]. f_equal; field; lra.
Qed.

Lemma next_distance_shrink O V r d :
  0 < r -> r < d -> Rdist V O = d ->
  Rdist V (next_center O V r d) = d * shrink r d.
Proof.
  intros Hr Hd HO. rewrite (next_distance O V r d Hr Hd HO).
  unfold shrink. field. lra.
Qed.

Lemma shrink_scale r d k : 0 < k -> shrink (r * k) (d * k) = shrink r d.
Proof.
  intros Hk. unfold shrink.
  replace (d * k - r * k) with ((d - r) * k) by ring.
  replace (d * k + r * k) with ((d + r) * k) by ring.
  destruct (Req_dec (d + r) 0) as [Hz|Hz].
  - rewrite Hz, Rmult_0_l. unfold Rdiv. rewrite Rinv_0. ring.
  - field. split; lra.
Qed.

Lemma bisector_center_step O V r d i :
  0 < r -> r < d ->
  bisector_center (bisector_center O V r d 1) V
    (r * shrink r d) (d * shrink r d) i
  = bisector_center O V r d (S i).
Proof.
  intros Hr Hd. destruct (shrink_bounds r d Hr Hd) as [Hs _].
  unfold bisector_center. rewrite shrink_scale by assumption.
  cbn [fst snd pow]. f_equal; ring.
Qed.

Lemma bisector_radius_step r d i :
  0 < r -> r < d ->
  bisector_radius (r * shrink r d) (d * shrink r d) i
  = bisector_radius r d (S i).
Proof.
  intros Hr Hd. destruct (shrink_bounds r d Hr Hd) as [Hs _].
  unfold bisector_radius. rewrite shrink_scale by assumption.
  cbn [pow]. ring.
Qed.

Lemma nth_error_app_9 (A : Type) (new rest : list A) (i : nat) :
  length new = 9%nat ->
  nth_error (new ++ rest) (9 * S i) = nth_error rest (9 * i).
Proof.
  intros Hn. rewrite nth_error_app2 by lia. f_equal. lia.
Qed.

Lemma depth_loop_bisector n :
  forall O V r d,
    0 < r -> r < d -> Rdist V O = d ->
    exists l,
      depth_loop descartesTheorem n (Rcircle O r) d V = Ok l
      /\ forall i, (i < n)%nat ->
           nth_error l (9 * i) = Some (bisector_circle O V r d (S i)).
Proof.
  induction n as [|n IH]; intros O V r d Hr Hd HO.
  - exists []. split; [reflexivity|]. intros i Hi. lia.
  - cbn [depth_loop].
    destruct (depth_body_R O V r d Hr Hd) as [new Hb]. rewrite Hb.
    cbn [bind].
    pose proof (depth_body_length _ _ _ _ _ _ _ Hb) as [Hlen Hhd].
    destruct (IH (next_center O V r d) V (next_radius r d)
                 (Rdist V (next_center O V r d))) as (rest & Hrest & Hnth).
    + apply next_radius_pos; assumption.
    + apply next_distance_gt; assumption.
    + reflexivity.
    + rewrite Hrest. cbn [bind]. eexists. split; [reflexivity|].
      intros [|i] Hi.
      * rewrite Nat.mul_0_r. destruct new as [|c new]; [discriminate|].
        cbn in Hhd |- *. rewrite Hhd. unfold bisector_circle.
        rewrite next_center_closed, next_radius_shrink by assumption.
        unfold bisector_radius. cbn [pow]. rewrite Rmult_1_r. reflexivity.
      * rewrite nth_error_app_9 by assumption.
        rewrite Hnth by lia. unfold bisector_circle.
        rewrite next_distance_shrink, next_radius_shrink,
          next_center_closed by assumption.
        rewrite bisector_center_step, bisector_radius_step by assumption.
        reflexivity.
Qed.




Lemma bisector_cross O V W r d i :
  cross V W (bisector_center O V r d i) = shrink r d ^ i * cross V W O.
Proof. unfold cross, bisector_center. cbn [fst snd]. ring. Qed.


Lemma depth_call_R (A B C : Point R) (depth : Z) (fuel : nat) lA lB lC :
  (0 <= depth)%Z ->
  depth_loop descartesTheorem (Z.to_nat depth)
    (Rcircle (incenter A B C) (inradius A B C))
    (Rdist (incenter A B C) A) A = Ok lA ->
  depth_loop descartesTheorem (Z.to_nat depth)
    (Rcircle (incenter A B C) (inradius A B C))
    (Rdist (incenter A B C) B) B = Ok lB ->
  depth_loop descartesTheorem (Z.to_nat depth)
    (Rcircle (incenter A B C) (inradius A B C))
    (Rdist (incenter A B C) C) C = Ok lC ->
  circInTriangle fuel (Rtriangle A B C) (Some depth) None false None
  = Ok (set_lstCirc (Rtriangle A B C)
          (incircle (Rtriangle A B C) :: lA ++ lB ++ lC),
        Some (incircle (Rtriangle A B C) :: lA ++ lB ++ lC), None).
Proof.
  intros Hdepth HlA HlB HlC.
  unfold circInTriangle, circInTriangle_with. cbn [bind].
  cbn [Rtriangle vertices distToIncenter vertices_values combine branches
       branch incircle].
  destruct (Z.leb_spec 0 depth) as [_|Hneg]; [|lia].
  rewrite HlA, HlB, HlC. cbn [lift bind]. rewrite app_nil_r. reflexivity.
Qed.


Lemma bisector_circle_on_bisector I rin V W1 W2 i :
  0 < rin -> rin < Rdist I V ->
  Rabs (cross V W1 I) = rin * Rdist V W1 ->
  Rabs (cross V W2 I) = rin * Rdist V W2 ->
  on_bisector I rin V W1 W2 i (bisector_circle I V rin (Rdist I V) (S i)).
Proof.
  intros Hr Hd H1 H2. destruct (shrink_bounds _ _ Hr Hd) as [Hs0 _].
  pose proof (pow_lt _ (S i) Hs0) as Hq.
  unfold on_bisector, bisector_circle.
  cbn [radius center Rcircle]. cbv zeta.
  split; [reflexivity|]. split; [reflexivity|].
  rewrite !bisector_cross, !Rabs_mult, H1, H2.
  rewrite (Rabs_right (shrink rin (Rdist I V) ^ S i)) by lra.
  unfold bisector_radius. split; ring.
Qed.

Lemma nth_error_branchA (A0 : Type) (inc : A0) (lA lB lC : list A0) k :
  (k < length lA)%nat ->
  nth_error (inc :: lA ++ lB ++ lC) (1 + k) = nth_error lA k.
Proof. intros Hk. cbn [Nat.add nth_error]. apply nth_error_app1. assumption. Qed.

Lemma nth_error_branchB (A0 : Type) (inc : A0) (lA lB lC : list A0) k :
  (k < length lB)%nat ->
  nth_error (inc :: lA ++ lB ++ lC) (1 + length lA + k) = nth_error lB k.
Proof.
  intros Hk. cbn [Nat.add nth_error].
  rewrite nth_error_app2 by lia.
  replace (length lA + k - length lA)%nat with k by lia.
  apply nth_error_app1. assumption.
Qed.

Lemma nth_error_branchC (A0 : Type) (inc : A0) (lA lB lC : list A0) k :
  nth_error (inc :: lA ++ lB ++ lC) (1 + length lA + length lB + k)
  = nth_error lC k.
Proof.
  cbn [Nat.add nth_error].
  rewrite nth_error_app2 by lia.
  rewrite nth_error_app2 by lia. f_equal. lia.
Qed.

Lemma depth_loop_length_R n O V r d l :
  depth_loop descartesTheorem n (Rcircle O r) d V = Ok l ->
  length l = (9 * n)%nat.
Proof.
  intros Hl. apply depth_loop_levels in Hl as (levels & -> & Hn & Hall).
  rewrite concat_length_9, Hn by assumption. reflexivity.
Qed.

(** X10.  In the depth-bounded mode the first circle of level [i] of each
    vertex (at positions [1 + 9 i], [1 + 9 d + 9 i] and [1 + 18 d + 9 i]
    of the list) is centred on the segment from the incentre to that
    vertex, its radius is the inradius times the [(i+1)]-th power of a
    ratio proper to the vertex, and it touches the two sides that meet at
    the vertex: the circles stay inside the triangle, against its
    sides. *)
Theorem depth_mode_bisector_circles (A B C : Point R) (depth : Z)
    (fuel : nat) :
  cross A B C <> 0 -> (0 <= depth)%Z ->
  exists self l,
    Triangle_init (A, B, C) = Ok self
    /\ circInTriangle fuel self (Some depth) None false None
       = Ok (set_lstCirc self l, Some l, None)
    /\ forall i, (i < Z.to_nat depth)%nat ->
         exists cA cB cC,
           nth_error l (1 + 9 * i) = Some cA
           /\ nth_error l (1 + 9 * Z.to_nat depth + 9 * i) = Some cB
           /\ nth_error l (1 + 18 * Z.to_nat depth + 9 * i) = Some cC
           /\ on_bisector (center (incircle self)) (radius (incircle self))
                A B C i cA
           /\ on_bisector (center (incircle self)) (radius (incircle self))
                B A C i cB
           /\ on_bisector (center (incircle self)) (radius (incircle self))
                C A B i cC.
Proof.
  intros Hc Hdepth.
  pose proof (inradius_pos A B C Hc) as Hr.
  destruct (incircle_inside A B C Hc) as (HA & HB & HC).
  destruct (incircle_touches A B C Hc) as (TAB & TBC & TCA).
  set (n := Z.to_nat depth).
  destruct (depth_loop_bisector n (incenter A B C) A (inradius A B C)
              (Rdist (incenter A B C) A) Hr HA (Rdist_sym _ _))
    as (lA & HlA & NA).
  destruct (depth_loop_bisector n (incenter A B C) B (inradius A B C)
              (Rdist (incenter A B C) B) Hr HB (Rdist_sym _ _))
    as (lB & HlB & NB).
  destruct (depth_loop_bisector n (incenter A B C) C (inradius A B C)
              (Rdist (incenter A B C) C) Hr HC (Rdist_sym _ _))
    as (lC & HlC & NC).
  pose proof (depth_loop_length_R _ _ _ _ _ _ HlA) as LA.
  pose proof (depth_loop_length_R _ _ _ _ _ _ HlB) as LB.
  exists (Rtriangle A B C), (incircle (Rtriangle A B C) :: lA ++ lB ++ lC).
  split; [apply Triangle_init_R; assumption|].
  split; [apply depth_call_R; assumption|].
  intros i Hi. do 3 eexists.
  split.
  { rewrite nth_error_branchA by lia. apply NA. assumption. }
  split.
  { replace (1 + 9 * n + 9 * i)%nat with (1 + length lA + 9 * i)%nat by lia.
    rewrite nth_error_branchB by lia. apply NB. assumption. }
  split.
  { replace (1 + 18 * n + 9 * i)%nat
      with (1 + length lA + length lB + 9 * i)%nat by lia.
    rewrite nth_error_branchC. apply NC. assumption. }
  cbn [incircle center radius Rtriangle Rcircle].
  split; [|split]; apply bisector_circle_on_bisector; try assumption.
  - rewrite Rabs_cross_swap. exact TCA.
  - rewrite Rabs_cross_swap, (Rdist_sym B A). exact TAB.
  - rewrite (Rdist_sym C A). exact TCA.
  - rewrite Rabs_cross_swap, (Rdist_sym C B). exact TBC.
Qed.

Lemma depth_mode_bisector_circles_witness :
  exists self l cA cB cC,
    Triangle_init ((0, 0), (4, 0), (0, 3)) = Ok self
    /\ circInTriangle 0 self (Some 2%Z) None false None
       = Ok (set_lstCirc self l, Some l, None)
    /\ nth_error l 10 = Some cA
    /\ nth_error l 28 = Some cB
    /\ nth_error l 46 = Some cC
    /\ on_bisector (center (incircle self)) (radius (incircle self))
         (0, 0) (4, 0) (0, 3) 1 cA
    /\ on_bisector (center (incircle self)) (radius (incircle self))
         (4, 0) (0, 0) (0, 3) 1 cB
    /\ on_bisector (center (incircle self)) (radius (incircle self))
         (0, 3) (0, 0) (4, 0) 1 cC.
Proof.
  destruct (depth_mode_bisector_circles (0, 0) (4, 0) (0, 3) 2 0)
    as (self & l & Hi & Hrun & Hl).
  - unfold cross. cbn. lra.
  - lia.
  - destruct (Hl 1%nat) as (cA & cB & cC & HA & HB & HC & OA & OB & OC).
    + cbn. lia.
    + exists self, l, cA, cB, cC.
      split; [exact Hi|]. split; [exact Hrun|]. split; [exact HA|].
      split; [exact HB|]. split; [exact HC|]. split; [exact OA|].
      split; [exact OB | exact OC].
Defined.












Lemma length_loop_never_stops fuel :
  forall O V r d lenght,
    0 < r -> r < d -> Rdist V O = d -> lenght <= 0 ->
    length_loop descartesTheorem fuel (Rcircle O r) d V lenght
    = Raise OutOfFuel.
Proof.
  induction fuel as [|fuel IH]; intros O V r d lenght Hr Hd HO Hl;
    [reflexivity|].
  cbn [length_loop]. rewrite length_body_R by assumption.
  pose proof (next_radius_pos r d Hr Hd) as Hn.
  destruct (Rle_dec _ lenght) as [Hle|_]; [lra|].
  cbn [lift bind]. rewrite IH; try assumption; try reflexivity.
  - apply next_distance_gt; assumption.
Qed.

(** X14.  With a length that is zero or negative the test
    [2 * radius <= lenght] never holds, since every radius is positive:
    in exact arithmetic the [while True] loop does not stop, whatever the
    number of turns allowed. *)
Theorem non_positive_length_never_returns (A B C : Point R) :
  cross A B C <> 0 ->
  exists self,
    Triangle_init (A, B, C) = Ok self
    /\ forall lenght fuel want2plot,
         lenght <= 0 ->
         circInTriangle fuel self None (Some lenght) want2plot None
         = Raise OutOfFuel.
Proof.
  intros Hc.
  pose proof (inradius_pos A B C Hc) as Hr.
  destruct (incircle_inside A B C Hc) as (HA & _).
  exists (Rtriangle A B C). split; [apply Triangle_init_R; assumption|].
  intros lenght fuel want2plot Hl.
  unfold circInTriangle, circInTriangle_with. cbn [bind].
  cbn [Rtriangle vertices distToIncenter vertices_values combine branches
       branch incircle].
  rewrite length_loop_never_stops by (try assumption; apply Rdist_sym).
  reflexivity.
Qed.

Lemma non_positive_length_never_returns_witness :
  exists self,
    Triangle_init ((0, 0), (4, 0), (0, 3)) = Ok self
    /\ circInTriangle 1000 self None (Some 0) false None = Raise OutOfFuel
    /\ circInTriangle 1000 self None (Some (-1)) true None = Raise OutOfFuel.
Proof.
  destruct (non_positive_length_never_returns (0, 0) (4, 0) (0, 3))
    as (self & Hi & Hn).
  - unfold cross. cbn. lra.
  - exists self. split; [exact Hi|]. split; apply Hn; lra.
Defined.









(** ** The packing loop, for every arithmetic *)

Section MoreStructure.

Context {F : Type} `{Arith F}.
Local Open Scope py_scope.

Lemma Circle_init_fields (c : Point F) (r : F) (circle : Circle F) :
  Circle_init c r = Ok circle -> center circle = c /\ radius circle = r.
Proof.
  unfold Circle_init. intros Hc. do 2 bind_inv Hc. injection Hc as <-.
  split; reflexivity.
Qed.

(** X16.  The two modes place the same circles: where a turn of the
    depth-bounded loop returns, the turn of the length-bounded loop from
    the same state either stops (the new circle is not wider than
    [lenght]) or appends the first three of the nine circles, and goes on
    from the same circle and distance. *)
Theorem modes_place_same_circles (auxCirc : Circle F) (auxDist : F)
    (vert : Point F) (lenght : F) new circle auxDist' :
  depth_body descartesTheorem auxCirc auxDist vert
  = Ok (new, circle, auxDist') ->
  length_body descartesTheorem auxCirc auxDist vert lenght
  = if fle (f2 * radius circle) lenght then Ok None
    else Ok (Some (firstn 3 new, circle, auxDist')).
Proof.
  unfold depth_body, length_body. intros Hb.
  bind_inv Hb. rewrite Ha. cbn [bind].
  bind_inv Hb. rewrite Ha0. cbn [bind].
  bind_inv Hb. bind_inv Hb.
  destruct (Circle_init_fields _ _ _ Ha2) as [_ Hr].
  apply bind_Ok in Hb. destruct Hb as ([c31 c32] & D3 & Hb). cbv beta iota in Hb.
  do 5 (let p := fresh "p" in
        apply bind_Ok in Hb; destruct Hb as ([? ?] & p & Hb);
        cbv beta iota in Hb).
  injection Hb as <- <- <-. rewrite Hr.
  destruct (fle (f2 * a0) lenght); [reflexivity|].
  rewrite Ha1. cbn [bind]. rewrite Ha2. cbn [bind]. rewrite D3. reflexivity.
Qed.

Lemma depth_loop_prefix (d : descartes_t) n :
  forall auxCirc auxDist vert l',
    depth_loop d (S n) auxCirc auxDist vert = Ok l' ->
    exists l extra,
      depth_loop d n auxCirc auxDist vert = Ok l
      /\ l' = l ++ extra
      /\ length extra = 9%nat.
Proof.
  induction n as [|n IH]; intros auxCirc auxDist vert l' Hl.
  - cbn [depth_loop] in Hl.
    apply bind_Ok in Hl. destruct Hl as ([[new circle] auxDist'] & Hb & Hl).
    cbn [bind] in Hl. injection Hl as <-.
    apply depth_body_length in Hb as [Hlen _].
    exists [], new. rewrite app_nil_r. auto.
  - remember (S n) as m. cbn [depth_loop] in Hl. subst m.
    apply bind_Ok in Hl. destruct Hl as ([[new circle] auxDist'] & Hb & Hl).
    bind_inv Hl. injection Hl as <-.
    apply IH in Ha as (l & extra & Hl & -> & Hextra).
    exists (new ++ l), extra.
    split; [|split; [apply app_assoc | assumption]].
    cbn [depth_loop]. rewrite Hb. cbn [bind]. rewrite Hl. reflexivity.
Qed.

Lemma branches_depth_prefix (d : descartes_t) fuel self depth vds :
  (0 <= depth)%Z ->
  forall l',
    branches d fuel self (Some (depth + 1)%Z) None vds = Ok l' ->
    exists l,
      branches d fuel self (Some depth) None vds = Ok l
      /\ incl l l'
      /\ length l' = (length l + 9 * length vds)%nat.
Proof.
  intros Hdepth.
  induction vds as [|[vert distance] vds IH]; intros l' Hl.
  - cbn [branches] in Hl. injection Hl as <-. exists []. simpl.
    split; [reflexivity|]. split; [apply incl_refl | reflexivity].
  - cbn [branches] in Hl. bind_inv Hl. bind_inv Hl. injection Hl as <-.
    apply IH in Ha0 as (rest & Hrest & Hincl & Hlen).
    unfold branch in Ha.
    destruct (Z.leb_spec 0 (depth + 1)) as [_|Hneg]; [|lia].
    apply lift_Ok in Ha.
    replace (Z.to_nat (depth + 1)) with (S (Z.to_nat depth)) in Ha by lia.
    apply depth_loop_prefix in Ha as (l & extra & Hl & -> & Hextra).
    exists (l ++ rest). split; [|split].
    + cbn [branches]. unfold branch.
      destruct (Z.leb_spec 0 depth) as [_|Hneg]; [|lia].
      rewrite Hl. cbn [lift bind]. rewrite Hrest. reflexivity.
    + apply incl_app.
      * apply incl_appl, incl_appl, incl_refl.
      * apply incl_appr. assumption.
    + rewrite !length_app, Hlen, Hextra. cbn [length]. lia.
Qed.

(** X17.  A packing of depth [d + 1] contains the packing of depth [d]:
    when the deeper call returns, so does the shallower one, every circle
    of the latter is in the former, and the former has nine more circles
    per vertex. *)
Theorem deeper_packing_extends (fuel : nat) (self : Triangle F) (depth : Z)
    (out' : Triangle F * option (list (Circle F)) * option (Axes F)) :
  (0 <= depth)%Z ->
  circInTriangle fuel self (Some (depth + 1)%Z) None false None = Ok out' ->
  exists l l',
    circInTriangle fuel self (Some depth) None false None
    = Ok (set_lstCirc self l, Some l, None)
    /\ snd (fst out') = Some l'
    /\ incl l l'
    /\ length l'
       = (length l
          + 9 * length (combine (vertices_values (vertices self))
                                (distToIncenter self)))%nat.
Proof.
  intros Hdepth Hcall.
  rewrite circInTriangle_merged in Hcall by reflexivity.
  cbn [effective_length] in Hcall. bind_inv Hcall. injection Hcall as <-.
  apply branches_depth_prefix in Ha as (l & Hl & Hincl & Hlen);
    [|assumption].
  exists (incircle self :: l), (incircle self :: a).
  split.
  { rewrite circInTriangle_merged by reflexivity. cbn [effective_length].
    rewrite Hl. reflexivity. }
  split; [reflexivity|].
  split.
  { intros x [<-|Hx]; [left; reflexivity | right; apply Hincl; assumption]. }
  cbn [length]. rewrite Hlen. lia.
Qed.

Lemma drawn_patches (self : Triangle F) (l : list (Circle F)) :
  patches (drawn self l) = map (fun c => (center c, radius c)) l
  /\ outline (drawn self l) = outline (plot self).
Proof.
  unfold drawn.
  assert (Hgen : forall fig,
            patches (fold_left
                       (fun fig circle =>
                          add_patch fig (center circle, radius circle)) l fig)
            = patches fig ++ map (fun c => (center c, radius c)) l
            /\ outline (fold_left
                          (fun fig circle =>
                             add_patch fig (center circle, radius circle))
                          l fig)
               = outline fig).
  { induction l as [|c l IH]; intros fig; simpl.
    - rewrite app_nil_r. auto.
    - destruct (IH (add_patch fig (center c, radius c))) as [Hp Ho].
      rewrite Hp, Ho. simpl. rewrite <- app_assoc. auto. }
  destruct (Hgen (plot self)) as [Hp Ho]. rewrite Hp, Ho.
  unfold plot. destruct (vertices self) as [[A B] C]. auto.
Qed.

(** X18.  A call with [want2plot=True] that returns has drawn the closed
    outline A, B, C, A of the triangle and one patch per circle of
    [lstCirc], in the order of the list, with its centre and radius. *)
Theorem plot_draws_every_circle (fuel : nat) (self : Triangle F)
    (depth : option Z) (lenght length : option F)
    (self' : Triangle F) (ret : option (list (Circle F)))
    (figure : option (Axes F)) :
  circInTriangle fuel self depth lenght true length
  = Ok (self', ret, figure) ->
  exists l fig A B C,
    lstCirc self' = Some l
    /\ figure = Some fig
    /\ vertices self = (A, B, C)
    /\ outline fig = [A; B; C; A]
    /\ patches fig = map (fun c => (center c, radius c)) l.
Proof.
  unfold circInTriangle, circInTriangle_with. intros Hcall.
  bind_inv Hcall. bind_inv Hcall. injection Hcall as <- <- <-.
  destruct (vertices self) as [[A B] C] eqn:Hv.
  exists (incircle self :: a0),
    (drawn (set_lstCirc self (incircle self :: a0)) (incircle self :: a0)),
    A, B, C.
  split; [reflexivity|]. split; [reflexivity|]. split; [reflexivity|].
  destruct (drawn_patches (set_lstCirc self (incircle self :: a0))
              (incircle self :: a0)) as [Hp Ho].
  rewrite Hp, Ho. unfold plot. cbn [vertices set_lstCirc]. rewrite Hv.
  split; reflexivity.
Qed.


End MoreStructure.

Lemma modes_place_same_circles_witness :
  exists new circle auxDist',
    depth_body descartesTheorem (incircle test_triangle)
      (nth 0 (distToIncenter test_triangle) 0%float) (2, 1.5)%float
    = Ok (new, circle, auxDist')
    /\ length_body descartesTheorem (incircle test_triangle)
         (nth 0 (distToIncenter test_triangle) 0%float) (2, 1.5)%float
         0.25%float
       = if fle (fmul f2 (radius circle)) 0.25%float then Ok None
         else Ok (Some (firstn 3 new, circle, auxDist')).
Proof.
  do 3 eexists. split; [vm_compute; reflexivity|].
  apply (modes_place_same_circles (incircle test_triangle)).
  vm_compute. reflexivity.
Defined.

Lemma deeper_packing_extends_witness :
  exists out' l l',
    circInTriangle 0 test_triangle (Some 2%Z) None false None = Ok out'
    /\ circInTriangle 0 test_triangle (Some 1%Z) None false None
       = Ok (set_lstCirc test_triangle l, Some l, None)
    /\ snd (fst out') = Some l'
    /\ incl l l'
    /\ length l' = (length l + 27)%nat.
Proof.
  assert (Hex : exists out',
             circInTriangle 0 test_triangle (Some (1 + 1)%Z) None false None
             = Ok out') by (eexists; vm_compute; reflexivity).
  destruct Hex as (out' & Hrun).
  destruct (deeper_packing_extends 0 test_triangle 1 out')
    as (l & l' & H1 & H2 & H3 & H4); [lia | exact Hrun |].
  exists out', l, l'.
  split; [exact Hrun|]. split; [exact H1|]. split; [exact H2|].
  split; [exact H3 | exact H4].
Defined.

Lemma plot_draws_every_circle_witness :
  exists self' ret figure l fig,
    circInTriangle 0 test_triangle (Some 1%Z) None true None
    = Ok (self', ret, figure)
    /\ lstCirc self' = Some l
    /\ figure = Some fig
    /\ outline fig = [(2, 1.5); (4.5, 4); (6, 2); (2, 1.5)]%float
    /\ patches fig = map (fun c => (center c, radius c)) l.
Proof.
  assert (Hex : exists out,
             circInTriangle 0 test_triangle (Some 1%Z) None true None
             = Ok out) by (eexists; vm_compute; reflexivity).
  destruct Hex as ([[self' ret] figure] & Hrun).
  destruct (plot_draws_every_circle 0 test_triangle (Some 1%Z) None None
              self' ret figure Hrun)
    as (l & fig & A & B & C & H1 & H2 & H3 & H4 & H5).
  exists self', ret, figure, l, fig.
  split; [exact Hrun|]. split; [exact H1|]. split; [exact H2|].
  split; [|exact H5].
  rewrite H4. vm_compute in H3. injection H3 as <- <- <-. reflexivity.
Defined.


(** ** Polygons *)

Section PolygonsAny.

Context {F : Type} `{Arith F}.


(** X21.  On three vertices [Polygon] and [Triangle] compute the same
    area, in every arithmetic. *)
Theorem Polygon_triangle_area (A B C : Point F) (self : Triangle F) :
  Triangle_init (A, B, C) = Ok self ->
  exists p, Polygon_init [A; B; C] = Ok p /\ p_area p = t_area self.
Proof.
  unfold Triangle_init, getGeomProperties. intros Hi.
  do 4 bind_inv Hi. injection Hi as <-.
  eexists. split; reflexivity.
Qed.

End PolygonsAny.

Lemma Polygon_triangle_area_witness :
  exists p,
    Polygon_init [(2, 1.5); (4.5, 4); (6, 2)]%float = Ok p
    /\ p_area p = t_area test_triangle.
Proof.
  apply (Polygon_triangle_area (2, 1.5)%float (4.5, 4)%float (6, 2)%float
           test_triangle).
  vm_compute. reflexivity.
Defined.

Lemma fold_left_Rplus (xs : list R) (a : R) :
  fold_left Rplus xs a = a + fold_left Rplus xs 0.
Proof.
  revert a. induction xs as [|x xs IH]; intros a; simpl; [lra|].
  rewrite (IH (a + x)), (IH (0 + x)). lra.
Qed.

Lemma signed_nil : signed [] = 0.
Proof. reflexivity. Qed.

Lemma signed_one p : signed [p] = 0.
Proof. reflexivity. Qed.

Lemma signed_cons p q rest :
  signed (p :: q :: rest) = edge p q + signed (q :: rest).
Proof.
  unfold signed, py_sum. cbn [shoelace_terms fold_left].
  cbn [f0 fadd fsub fmul RArith].
  rewrite fold_left_Rplus. unfold edge. lra.
Qed.

Lemma signed_snoc l p q :
  signed ((l ++ [p]) ++ [q]) = signed (l ++ [p]) + edge p q.
Proof.
  induction l as [|a l IH]; simpl.
  - rewrite signed_cons, !signed_one. lra.
  - destruct l as [|b l]; simpl in *.
    + rewrite !signed_cons, !signed_one. lra.
    + rewrite (signed_cons a b), (signed_cons a b), IH. lra.
Qed.

Lemma edge_swap p q : edge q p = - edge p q.
Proof. unfold edge. ring. Qed.

Lemma signed_rev b : signed (rev b) = - signed b.
Proof.
  induction b as [|p b IH]; simpl; [rewrite signed_nil; lra|].
  destruct b as [|q b]; simpl in *; [rewrite signed_one; lra|].
  rewrite signed_snoc, IH, signed_cons, edge_swap. lra.
Qed.

Lemma signed_shift t p b :
  signed (map (shift t) (p :: b))
  = signed (p :: b)
    + fst t * (snd (last b p) - snd p) - snd t * (fst (last b p) - fst p).
Proof.
  revert p. induction b as [|q b IH]; intros p.
  - simpl. rewrite !signed_one. lra.
  - cbn [map]. rewrite signed_cons. cbn [map] in IH. rewrite IH.
    rewrite signed_cons.
    replace (last (q :: b) p) with (last b q)
      by (clear; revert q; induction b; simpl; intros; auto; destruct b; auto).
    unfold edge, shift. cbn [fst snd]. ring.
Qed.

Lemma last_snoc (A : Type) (l : list A) (a d : A) : last (l ++ [a]) d = a.
Proof. apply last_last. Qed.

Lemma Polygon_init_cons (a : Point R) (m : list (Point R)) :
  Polygon_init (a :: m)
  = Ok {| coordinates := a :: m;
          boundCoords := (a :: m) ++ [a];
          p_area := 1 / 2 * Rabs (signed ((a :: m) ++ [a])) |}.
Proof. reflexivity. Qed.

(** X22.  The area of a polygon does not change when all its vertices are
    moved by the same vector. *)
Theorem Polygon_area_translation (coords : list (Point R)) (t : Point R)
    (p : Polygon R) :
  Polygon_init coords = Ok p ->
  exists p',
    Polygon_init (map (shift t) coords) = Ok p' /\ p_area p' = p_area p.
Proof.
  destruct coords as [|a m]; [discriminate|].
  rewrite Polygon_init_cons. intros Hp. injection Hp as <-.
  cbn [map]. rewrite Polygon_init_cons.
  eexists. split; [reflexivity|]. cbn [p_area]. do 2 f_equal.
  change ((shift t a :: map (shift t) m) ++ [shift t a])
    with (map (shift t) (a :: m) ++ map (shift t) [a]).
  rewrite <- map_app. cbn [app]. rewrite signed_shift, last_snoc. lra.
Qed.

Lemma Polygon_area_translation_witness :
  exists p p',
    Polygon_init [(0, 0); (4, 0); (0, 3)] = Ok p
    /\ Polygon_init (map (shift (1, 2)) [(0, 0); (4, 0); (0, 3)]) = Ok p'
    /\ p_area p' = p_area p.
Proof.
  pose proof (Polygon_init_cons (0, 0) [(4, 0); (0, 3)]) as Hp.
  destruct (Polygon_area_translation _ (1, 2) _ Hp) as (p' & H1 & H2).
  eexists. exists p'. split; [exact Hp|]. split; [exact H1 | exact H2].
Defined.

(** X23.  The area does not depend on the vertex the list starts from:
    moving the first vertex to the end leaves it unchanged. *)
Theorem Polygon_area_rotation (a : Point R) (m : list (Point R)) :
  exists p p',
    Polygon_init (a :: m) = Ok p
    /\ Polygon_init (m ++ [a]) = Ok p'
    /\ p_area p' = p_area p.
Proof.
  destruct m as [|b m].
  - do 2 eexists. repeat split.
  - cbn [app]. rewrite !Polygon_init_cons.
    do 2 eexists. split; [reflexivity|]. split; [reflexivity|].
    cbn [p_area]. do 2 f_equal.
    cbn [app]. rewrite (signed_cons a b).
    change (b :: (m ++ [a]) ++ [b]) with (((b :: m) ++ [a]) ++ [b]).
    rewrite signed_snoc. cbn [app]. lra.
Qed.

(** X24.  The area does not depend on the orientation: the reversed list
    of vertices has the same area. *)
Theorem Polygon_area_reversal (coords : list (Point R)) (p : Polygon R) :
  Polygon_init coords = Ok p ->
  exists p', Polygon_init (rev coords) = Ok p' /\ p_area p' = p_area p.
Proof.
  destruct coords as [|a m]; [discriminate|].
  rewrite Polygon_init_cons. intros Hp. injection Hp as <-.
  destruct (exists_last (l := a :: m)) as (l & z & Hl); [discriminate|].
  rewrite Hl, rev_app_distr. cbn [rev app]. rewrite Polygon_init_cons.
  eexists. split; [reflexivity|]. cbn [p_area].
  change (a :: m ++ [a]) with ((a :: m) ++ [a]). rewrite Hl.
  rewrite <- (Rabs_Ropp (signed ((l ++ [z]) ++ [a]))), <- signed_rev.
  do 2 f_equal.
  rewrite rev_app_distr. cbn [rev app]. rewrite rev_app_distr. cbn [rev app].
  (* the closed path of the reversed list against the reversed closed path *)
  destruct l as [|a' l].
  - cbn [app] in Hl. injection Hl as -> ->. reflexivity.
  - cbn [app] in Hl. injection Hl as <- Hm.
    rewrite (signed_cons a z).
    assert (Hra : rev (a :: l) = rev l ++ [a]) by reflexivity.
    rewrite Hra.
    change (z :: (rev l ++ [a]) ++ [z]) with (((z :: rev l) ++ [a]) ++ [z]).
    rewrite signed_snoc. cbn [app]. lra.
Qed.

Lemma Polygon_area_reversal_witness :
  exists p p',
    Polygon_init [(0, 0); (4, 0); (0, 3)] = Ok p
    /\ Polygon_init [(0, 3); (4, 0); (0, 0)] = Ok p'
    /\ p_area p' = p_area p.
Proof.
  pose proof (Polygon_init_cons (0, 0) [(4, 0); (0, 3)]) as Hp.
  destruct (Polygon_area_reversal _ _ Hp) as (p' & H1 & H2).
  eexists. exists p'. split; [exact Hp|]. split; [exact H1 | exact H2].
Defined.

(** X25.  A polygon of one or two vertices has area zero. *)
Theorem Polygon_few_vertices (coords : list (Point R)) (p : Polygon R) :
  Polygon_init coords = Ok p -> (length coords <= 2)%nat -> p_area p = 0.
Proof.
  destruct coords as [|a [|b [|c m]]]; [discriminate| | |simpl; lia];
    rewrite Polygon_init_cons; intros Hp _; injection Hp as <-;
    cbn [p_area app]; rewrite !signed_cons, !signed_one.
  - replace (edge a a + 0) with 0 by (unfold edge; ring).
    rewrite Rabs_R0. lra.
  - replace (edge a b + (edge b a + 0)) with 0 by (unfold edge; ring).
    rewrite Rabs_R0. lra.
Qed.

Lemma Polygon_few_vertices_witness :
  exists p, Polygon_init [(1, 2); (3, 4)] = Ok p /\ p_area p = 0.
Proof.
  pose proof (Polygon_init_cons (1, 2) [(3, 4)]) as Hp.
  eexists. split; [exact Hp|].
  apply (Polygon_few_vertices _ _ Hp). cbn. lia.
Defined.
